(** * correciones.py: Conway's Game of Life and its weak-scaling harness

    A shallow embedding of [correciones.py].  The numpy arrays of the
    program are modelled at two levels:

    - as values ([ndarray]): the column count and the list of rows, with the
      numpy operations the program uses ([np.roll], [+] on uint8, [==],
      [|], [&], [astype], [np.array_split], [np.random.randint],
      [np.sqrt]) as functions on them;
    - as objects ([vista]): a window of rows over a buffer of the store, so
      that the views returned by [np.array_split] alias the buffer of the
      parent grid, and every numpy operation allocates the buffer of its
      result.

    The program itself ([JuegoDeLaVida], [worker], [escalamiento_debil]) is
    written in a state-and-exception monad over the world [mundo]: the store,
    the global random source, the wall clock and the standard output.

    What the model takes from outside the program:
    - numpy and the Python library behave as they are documented; float64
      is the IEEE-754 binary64 of [SpecFloat], so [int(np.sqrt(x))] is
      computed bit for bit;
    - the random source is the sequence of the 32-bit outputs to come of
      the generator behind [np.random], whatever they are, and the clock
      any sequence of readings: nothing is assumed of either, except where
      a statement says so;
    - [npy_intp] has 64 bits: numpy has no array of [2^63] bytes or more;
    - a reading of the clock is a rational number of seconds, and an elapsed
      time the exact difference of two readings (the float64 difference of
      two readings has the same sign);
    - the store is unbounded (no [MemoryError]), and every task of the pool
      runs in a child that starts from a copy of the parent's world. *)

From Stdlib Require Import ZArith QArith Lia.
From Stdlib Require Import Floats.SpecFloat.
From stdpp Require Import base option list gmap.

Local Open Scope Z_scope.

(** ** Exceptions and results *)

(** The exceptions the program can raise.  [ReferenciaColgante] has no Python
    counterpart: it is what reading a view whose buffer is not in the store
    gives, which no Python program can do. *)
Inductive excepcion : Type :=
  | ValueError
  | TypeError
  | OverflowError
  | IndexError
  | ReferenciaColgante.

Inductive resultado (A : Type) : Type :=
  | Ok (a : A)
  | Error (e : excepcion).
Arguments Ok {A} a.
Arguments Error {A} e.

(** ** Arrays as values *)

(** A two-dimensional array: shape [(length datos, ncols)].  The column count
    is kept apart because an array of shape [(0, c)] has no row to read it
    from. *)
Record ndarray : Type := Ndarray {
  ncols : nat;
  datos : list (list Z)
}.

Definition nfilas (a : ndarray) : nat := length (datos a).

(** Every row has [ncols] cells. *)
Definition bien_formada (a : ndarray) : Prop :=
  Forall (λ fila, length fila = ncols a) (datos a).

(** Every cell is 0 or 1. *)
Definition binaria (a : ndarray) : Prop :=
  Forall (Forall (λ x, x = 0 ∨ x = 1)) (datos a).

(** The cell at row [i], column [j]; 0 outside the array. *)
Definition celda (a : ndarray) (i j : nat) : Z :=
  default 0 (datos a !! i ≫= (.!! j)).

Inductive eje : Type := Eje0 | Eje1.

Module valor.

(** [np.roll] along one axis of length [n]: [offset %= n or 1], then the
    last [offset] elements come first. *)
Definition roll_lista {A : Type} (l : list A) (shift : Z) : list A :=
  let n := length l in
  let offset := Z.to_nat (shift mod Z.of_nat (if n is O then 1%nat else n)) in
  drop (n - offset) l ++ take (n - offset) l.

(** [np.roll(a, shift, axis)] *)
Definition roll (a : ndarray) (shift : Z) (axis : eje) : ndarray :=
  match axis with
  | Eje0 => Ndarray (ncols a) (roll_lista (datos a) shift)
  | Eje1 => Ndarray (ncols a) (map (λ fila, roll_lista fila shift) (datos a))
  end.

(** Cell by cell, for two arrays of one shape. *)
Definition por_celda (f : Z → Z → Z) (a b : ndarray) : ndarray :=
  Ndarray (ncols a) (zip_with (zip_with f) (datos a) (datos b)).

(** [a + b] on uint8 arrays: the sum wraps around at 256. *)
Definition suma : ndarray → ndarray → ndarray :=
  por_celda (λ x y, (x + y) mod 256).

(** [a == k]: an array of booleans, stored as the bytes 0 and 1. *)
Definition igual (a : ndarray) (k : Z) : ndarray :=
  Ndarray (ncols a) (map (map (λ x, Z.b2z (x =? k))) (datos a)).

(** [a | b] and [a & b] on boolean arrays. *)
Definition o : ndarray → ndarray → ndarray := por_celda Z.lor.
Definition y : ndarray → ndarray → ndarray := por_celda Z.land.

(** [a.astype(np.uint8)]: a copy, each cell reduced to a byte. *)
Definition astype_uint8 (a : ndarray) : ndarray :=
  Ndarray (ncols a) (map (map (λ x, x mod 256)) (datos a)).

(** [np.cumsum] *)
Fixpoint cumsum_desde (acc : nat) (l : list nat) : list nat :=
  match l with
  | [] => []
  | x :: l' => (acc + x)%nat :: cumsum_desde (acc + x) l'
  end.
Definition cumsum (l : list nat) : list nat := cumsum_desde 0 l.

(** The division points of [np.array_split(ary, Nsections)] for an axis of
    length [Ntotal]:
    [Neach_section, extras = divmod(Ntotal, Nsections)],
    [section_sizes = [0] + extras * [Neach_section+1]
                         + (Nsections-extras) * [Neach_section]],
    [div_points = cumsum(section_sizes)]. *)
Definition section_sizes (Ntotal Nsections : nat) : list nat :=
  let Neach_section := (Ntotal / Nsections)%nat in
  let extras := (Ntotal mod Nsections)%nat in
  [0%nat] ++ replicate extras (Neach_section + 1)%nat
          ++ replicate (Nsections - extras) Neach_section.

Definition div_points (Ntotal Nsections : nat) : list nat :=
  cumsum (section_sizes Ntotal Nsections).

(** The shapes numpy makes an array of: no dimension is negative, every
    dimension fits [npy_intp], and so does the product of the dimensions
    that are not 0, in bytes.  Any other shape is a [ValueError] (negative
    dimensions are not allowed; maximum allowed dimension exceeded; array is
    too big). *)
Definition forma_posible (filas columnas : Z) : bool :=
  (0 <=? filas) && (filas <? 2 ^ 63) && (0 <=? columnas) && (columnas <? 2 ^ 63)
  && ((filas =? 0) || (columnas =? 0) || (filas * columnas <? 2 ^ 63)).

(** Cell number [k] of one call of [randint] for uint8 values below 2, on
    the outputs [azar] of the generator: the 32-bit outputs are taken one at
    a time as the cells need them, each gives four cells, its low byte
    first, and a cell is its byte masked with 1. *)
Definition celda_sorteada (azar : nat → Z) (k : nat) : Z :=
  Z.b2z (Z.testbit (azar (k / 4)%nat) (8 * Z.of_nat (k mod 4))).

(** [np.random.randint(2, size=(filas, columnas), dtype=np.uint8)] on the
    outputs [azar] of the generator: the cells are drawn row by row, and
    what is left of the last output taken is dropped at the end of the call,
    so that a grid of [n] cells takes [n / 4] outputs, rounded up. *)
Definition randint2 (azar : nat → Z) (filas columnas : Z)
  : resultado (ndarray * (nat → Z)) :=
  if forma_posible filas columnas then
    let f := Z.to_nat filas in
    let c := Z.to_nat columnas in
    Ok (Ndarray c (map (λ i, map (λ j, celda_sorteada azar (i * c + j)%nat)
                                 (seq 0 c))
                       (seq 0 f)),
        λ k, azar (k + (f * c + 3) / 4)%nat)
  else Error ValueError.

(** *** float64 *)

Definition prec : Z := 53.
Definition emax : Z := 1024.

(** A Python int as a float64, rounded to nearest, ties to even. *)
Definition float64 (x : Z) : spec_float := binary_normalize prec emax x 0 false.

(** [np.sqrt(x)] for a Python int [x]: an int64 or uint64 converted to
    float64, then the IEEE square root (NaN on a negative number).  An int
    outside both ranges becomes an object array, on which [np.sqrt] raises
    [TypeError]. *)
Definition sqrt (x : Z) : resultado spec_float :=
  if (x <? - 2 ^ 63) || (2 ^ 64 <=? x) then Error TypeError
  else Ok (SFsqrt prec emax (float64 x)).

End valor.

(** [int(f)] on a float: truncation towards zero; [ValueError] on NaN and
    [OverflowError] on an infinity. *)
Definition int (f : spec_float) : resultado Z :=
  match f with
  | S754_nan => Error ValueError
  | S754_infinity _ => Error OverflowError
  | S754_zero _ => Ok 0
  | S754_finite s m e =>
      let v := if 0 <=? e then Z.pos m * 2 ^ e else Z.pos m / 2 ^ (- e) in
      Ok (if s then - v else v)
  end.

(** ** The generation rule on values *)

(** The expression of [contar_vecinos]: the eight shifted copies, added from
    left to right. *)
Definition vecinos_de (g : ndarray) : ndarray :=
  valor.suma (valor.suma (valor.suma (valor.suma (valor.suma (valor.suma (valor.suma
    (valor.roll (valor.roll g 1 Eje0) 1 Eje1)
    (valor.roll (valor.roll g 1 Eje0) 0 Eje1))
    (valor.roll (valor.roll g 1 Eje0) (-1) Eje1))
    (valor.roll (valor.roll g 0 Eje0) 1 Eje1))
    (valor.roll (valor.roll g 0 Eje0) (-1) Eje1))
    (valor.roll (valor.roll g (-1) Eje0) 1 Eje1))
    (valor.roll (valor.roll g (-1) Eje0) 0 Eje1))
    (valor.roll (valor.roll g (-1) Eje0) (-1) Eje1).

(** [((vecinos == 3) | ((grilla == 1) & (vecinos == 2))).astype(np.uint8)] *)
Definition regla (grilla vecinos : ndarray) : ndarray :=
  valor.astype_uint8
    (valor.o (valor.igual vecinos 3) (valor.y (valor.igual grilla 1) (valor.igual vecinos 2))).

(** One generation of a grid, as a value. *)
Definition generacion (g : ndarray) : ndarray := regla g (vecinos_de g).

(** ** The rule as the specification words it *)

(** The row (column) index [i + d] wrapped modulo the [n] rows (columns). *)
Definition envuelve (n : nat) (i : nat) (d : Z) : nat :=
  Z.to_nat ((Z.of_nat i + d) mod Z.of_nat n).

(** The sum of the 8 neighbours of cell [(i, j)], indices wrapping modulo the
    rows and the columns of the grid. *)
Definition vecinos_toroidales (g : ndarray) (i j : nat) : Z :=
  let R := nfilas g in
  let C := ncols g in
  let c di dj := celda g (envuelve R i di) (envuelve C j dj) in
  c (-1) (-1) + c (-1) 0 + c (-1) 1 +
  c 0 (-1) + c 0 1 +
  c 1 (-1) + c 1 0 + c 1 1.

(** Alive next: exactly 3 neighbours, or alive with exactly 2. *)
Definition vive (g : ndarray) (i j : nat) : Prop :=
  vecinos_toroidales g i j = 3 ∨ (celda g i j = 1 ∧ vecinos_toroidales g i j = 2).

(** ** Arrays as objects, and the world *)

(** An array object: rows [inicio, inicio + vfilas) of the buffer at address
    [base], each of [vcols] cells.  Two views with one [base] share their
    cells.  The shape of an array object is one of [valor.forma_posible]. *)
Record vista : Type := Vista {
  base : nat;
  inicio : nat;
  vfilas : nat;
  vcols : nat
}.

(** What the program prints: [>> {p} procesos con grilla {lado}x{lado}] and
    [Tiempo: {tiempo} s]. *)
Inductive evento : Type :=
  | Informe (p lado : Z)
  | Tiempo (t : Q).

(** The world: the buffers of the store, the global random source of
    [np.random] (the 32-bit outputs to come of its generator), the wall clock
    (the readings to come, in seconds) and the standard output. *)
Record mundo : Type := Mundo {
  memoria : gmap nat (list (list Z));
  azar : nat → Z;
  reloj : nat → Q;
  salida : list evento
}.

Definition M (A : Type) : Type := mundo → resultado (A * mundo).

#[global] Instance M_ret : MRet M := λ A a w, Ok (a, w).
#[global] Instance M_bind : MBind M := λ A B k c w,
  match c w with
  | Ok (a, w') => k a w'
  | Error e => Error e
  end.

Definition raise {A : Type} (e : excepcion) : M A := λ _, Error e.

(** The array a view shows in a store.  A view of a shape that no array
    has shows nothing. *)
Definition leer_en (m : gmap nat (list (list Z))) (v : vista) : option ndarray :=
  buf ← m !! base v;
  if valor.forma_posible (Z.of_nat (vfilas v)) (Z.of_nat (vcols v))
  then Some (Ndarray (vcols v) (take (vfilas v) (drop (inicio v) buf)))
  else None.

Definition leer (v : vista) : M ndarray := λ w,
  match leer_en (memoria w) v with
  | Some a => Ok (a, w)
  | None => Error ReferenciaColgante
  end.

(** A new array object over a buffer of its own. *)
Definition nuevo (a : ndarray) : M vista := λ w,
  let l := fresh (dom (memoria w)) in
  Ok (Vista l 0 (nfilas a) (ncols a),
      Mundo (<[l := datos a]> (memoria w)) (azar w) (reloj w) (salida w)).

(** [for _ in range(n): s = cuerpo(s)] *)
Fixpoint for_range {S : Type} (n : nat) (cuerpo : S → M S) (s : S) : M S :=
  match n with
  | O => mret s
  | S n' => s' ← cuerpo s; for_range n' cuerpo s'
  end.

(** [time.time()] *)
Definition time_time : M Q := λ w,
  Ok (reloj w 0%nat,
      Mundo (memoria w) (azar w) (λ k, reloj w (S k)) (salida w)).

Definition print (e : evento) : M unit := λ w,
  Ok ((), Mundo (memoria w) (azar w) (reloj w) (salida w ++ [e])).

(** A computation in a child process: it works on its own copy of the world,
    and only its result comes back. *)
Definition en_proceso_hijo {A : Type} (c : M A) : M A := λ w,
  match c w with
  | Ok (a, _) => Ok (a, w)
  | Error e => Error e
  end.

(** numpy as the program calls it: every operation reads its arguments in the
    store and returns a new array object; [array_split] returns views. *)
Module np.

Definition op1 (f : ndarray → ndarray) (a : vista) : M vista :=
  x ← leer a; nuevo (f x).

Definition op2 (f : ndarray → ndarray → ndarray) (a b : vista) : M vista :=
  x ← leer a; y ← leer b; nuevo (f x y).

Definition roll (a : vista) (shift : Z) (axis : eje) : M vista :=
  op1 (λ x, valor.roll x shift axis) a.

(** [a + b] *)
Definition add : vista → vista → M vista := op2 valor.suma.
(** [a == k] *)
Definition equal (a : vista) (k : Z) : M vista := op1 (λ x, valor.igual x k) a.
(** [a | b] *)
Definition bitwise_or : vista → vista → M vista := op2 valor.o.
(** [a & b] *)
Definition bitwise_and : vista → vista → M vista := op2 valor.y.
(** [a.astype(np.uint8)] *)
Definition astype_uint8 : vista → M vista := op1 valor.astype_uint8.

(** [np.random.randint(2, size=(filas, columnas), dtype=np.uint8)] *)
Definition random_randint2 (filas columnas : Z) : M vista := λ w,
  match valor.randint2 (azar w) filas columnas with
  | Ok (a, azar') => nuevo a (Mundo (memoria w) azar' (reloj w) (salida w))
  | Error e => Error e
  end.

(** [sary[st:end]] for [0 <= st] and [0 <= end]: both ends are clipped to
    the rows of the array, and the slice is a view of its buffer. *)
Definition rebanada (ary : vista) (st fin : nat) : vista :=
  let st' := (st `min` vfilas ary)%nat in
  let fin' := (fin `min` vfilas ary)%nat in
  Vista (base ary) (inicio ary + st') (fin' - st') (vcols ary).

(** [np.array_split(ary, Nsections, axis=0)]:
    [if Nsections <= 0: raise ValueError], then
    [sub_arys = [sary[div_points[i]:div_points[i + 1]]
                 for i in range(Nsections)]]. *)
Definition array_split (ary : vista) (Nsections : Z) : M (list vista) :=
  if Nsections <=? 0 then raise ValueError
  else
    let n := Z.to_nat Nsections in
    let div_points := valor.div_points (vfilas ary) n in
    mret (map (λ i, rebanada ary (nth i div_points 0%nat)
                                 (nth (S i) div_points 0%nat))
              (seq 0 n)).

(** [np.sqrt(x)] *)
Definition sqrt (x : Z) : M spec_float := λ w,
  match valor.sqrt x with
  | Ok f => Ok (f, w)
  | Error e => Error e
  end.

End np.

(** [int(f)] as a statement of the program. *)
Definition int_ (f : spec_float) : M Z := λ w,
  match int f with
  | Ok z => Ok (z, w)
  | Error e => Error e
  end.

(** ** class JuegoDeLaVida *)

Record JuegoDeLaVida : Type := Juego {
  filas : Z;
  columnas : Z;
  pasos : Z;
  procesos : Z;
  grilla : vista
}.

(** [self.grilla = g] *)
Definition con_grilla (self : JuegoDeLaVida) (g : vista) : JuegoDeLaVida :=
  Juego (filas self) (columnas self) (pasos self) (procesos self) g.

Definition __init__ (filas columnas pasos procesos : Z) : M JuegoDeLaVida :=
  g ← np.random_randint2 filas columnas;
  mret (Juego filas columnas pasos procesos g).

Definition contar_vecinos (subgrilla : vista) : M vista :=
  a ← np.roll subgrilla 1 Eje0; t1 ← np.roll a 1 Eje1;
  a ← np.roll subgrilla 1 Eje0; t2 ← np.roll a 0 Eje1;
  s ← np.add t1 t2;
  a ← np.roll subgrilla 1 Eje0; t3 ← np.roll a (-1) Eje1;
  s ← np.add s t3;
  a ← np.roll subgrilla 0 Eje0; t4 ← np.roll a 1 Eje1;
  s ← np.add s t4;
  a ← np.roll subgrilla 0 Eje0; t5 ← np.roll a (-1) Eje1;
  s ← np.add s t5;
  a ← np.roll subgrilla (-1) Eje0; t6 ← np.roll a 1 Eje1;
  s ← np.add s t6;
  a ← np.roll subgrilla (-1) Eje0; t7 ← np.roll a 0 Eje1;
  s ← np.add s t7;
  a ← np.roll subgrilla (-1) Eje0; t8 ← np.roll a (-1) Eje1;
  vecinos ← np.add s t8;
  mret vecinos.

(** [((vecinos == 3) | ((grilla == 1) & (vecinos == 2))).astype(np.uint8)] *)
Definition aplicar_regla (grilla vecinos : vista) : M vista :=
  tres ← np.equal vecinos 3;
  viva ← np.equal grilla 1;
  dos ← np.equal vecinos 2;
  sobrevive ← np.bitwise_and viva dos;
  b ← np.bitwise_or tres sobrevive;
  np.astype_uint8 b.

Definition step (self : JuegoDeLaVida) : M JuegoDeLaVida :=
  vecinos ← contar_vecinos (grilla self);
  g ← aplicar_regla (grilla self) vecinos;
  mret (con_grilla self g).

Definition run (self : JuegoDeLaVida) : M JuegoDeLaVida :=
  for_range (Z.to_nat (pasos self)) step self.

(** ** worker *)

Definition worker (subgrilla : vista) (pasos : Z) : M vista :=
  juego ← __init__ (Z.of_nat (vfilas subgrilla)) (Z.of_nat (vcols subgrilla)) pasos 1;
  let juego := con_grilla juego subgrilla in
  juego ← for_range (Z.to_nat pasos)
            (λ juego,
               vecinos ← contar_vecinos (grilla juego);
               g ← aplicar_regla (grilla juego) vecinos;
               mret (con_grilla juego g))
            juego;
  mret (grilla juego).

(** ** escalamiento_debil *)

(** [mp.Pool(processes=p)] *)
Definition Pool (processes : Z) : M unit :=
  if processes <? 1 then raise ValueError else mret ().

(** [pool.starmap(worker, args)]: every sub-grid is pickled to a child
    process, which runs [worker] on its copy; the result is pickled back into
    a new array of the parent. *)
Fixpoint starmap_worker (args : list (vista * Z)) : M (list vista) :=
  match args with
  | [] => mret []
  | (sg, pasos) :: args' =>
      a ← leer sg;
      r ← en_proceso_hijo (sg' ← nuevo a; r ← worker sg' pasos; leer r);
      r ← nuevo r;
      rs ← starmap_worker args';
      mret (r :: rs)
  end.

(** [subgrillas[0]] *)
Definition primera (subgrillas : list vista) : M vista :=
  match subgrillas with
  | sg :: _ => mret sg
  | [] => raise IndexError
  end.

(** The body of [for p in lista_procesos], from the times so far to the times
    with that of [p] appended. *)
Definition iteracion (celdas_por_proceso pasos : Z) (p : Z) (tiempos : list Q)
  : M (list Q) :=
  raiz ← np.sqrt (celdas_por_proceso * p);
  lado ← int_ raiz;
  juego ← __init__ lado lado pasos p;
  subgrillas ← np.array_split (grilla juego) p;
  sg0 ← primera subgrillas;
  _ ← worker sg0 1;
  inicio ← time_time;
  _ ← Pool p;
  _ ← starmap_worker (map (λ sg, (sg, pasos)) subgrillas);
  fin ← time_time;
  let tiempo := (fin - inicio)%Q in
  _ ← print (Informe p lado);
  _ ← print (Tiempo tiempo);
  mret (tiempos ++ [tiempo]).

Fixpoint para_cada (celdas_por_proceso pasos : Z) (lista_procesos : list Z)
  (tiempos : list Q) : M (list Q) :=
  match lista_procesos with
  | [] => mret tiempos
  | p :: resto =>
      tiempos ← iteracion celdas_por_proceso pasos p tiempos;
      para_cada celdas_por_proceso pasos resto tiempos
  end.

Definition escalamiento_debil (celdas_por_proceso pasos : Z)
  (lista_procesos : list Z) : M (list Q) :=
  para_cada celdas_por_proceso pasos lista_procesos [].

(** The samples the main program writes: [zip(procesos, tiempos)]. *)
Definition muestras (procesos : list Z) (tiempos : list Q) : list (Z * Q) :=
  zip procesos tiempos.

(** A world to run examples in: an empty store, a generator whose outputs
    are 1, 258, 515, ..., a clock that ticks once a reading. *)
Definition mundo0 : mundo :=
  Mundo ∅ (λ k, 257 * Z.of_nat k + 1) (λ k, inject_Z (Z.of_nat k)) [].

(** ** Notions for the statements *)

(** The cell at [(i, j)], if the array has one. *)
Definition celda_opt (a : ndarray) (i j : nat) : option Z :=
  datos a !! i ≫= (.!! j).

(** [R] rows of [C] cells each. *)
Definition de_forma (R C : nat) (a : ndarray) : Prop :=
  nfilas a = R ∧ ncols a = C ∧ bien_formada a.

(** A byte of the rule: 1 when [v = 3], or [x = 1] and [v = 2]; else 0. *)
Definition regla_celda (x v : Z) : Z :=
  (Z.lor (Z.b2z (v =? 3)) (Z.land (Z.b2z (x =? 1)) (Z.b2z (v =? 2)))) mod 256.

(** [c] returns from [w], with a result and a world that satisfy [Φ]. *)
Definition logra {A : Type} (c : M A) (w : mundo) (Φ : A → mundo → Prop) : Prop :=
  match c w with
  | Ok (a, w') => Φ a w'
  | Error _ => False
  end.

(** The view [v] shows the array [a] in the world [w]. *)
Definition vale (w : mundo) (v : vista) (a : ndarray) : Prop :=
  leer_en (memoria w) v = Some a.

(** From [w] to [w'] every buffer of the store is kept as it was (new ones
    may have come), and the clock and the output are untouched. *)
Definition conserva (w w' : mundo) : Prop :=
  memoria w ⊆ memoria w' ∧ reloj w' = reloj w ∧ salida w' = salida w.

(** The same, and the random source is untouched too. *)
Definition solo_aloja (w w' : mundo) : Prop :=
  conserva w w' ∧ azar w' = azar w.

(** [c] returns a view of the array [a], and only allocates. *)
Definition calcula (c : M vista) (w : mundo) (a : ndarray) : Prop :=
  logra c w (λ v w', vale w' v a ∧ solo_aloja w w').

(** The shape of [a] is one numpy makes an array of. *)
Definition cabe (a : ndarray) : Prop :=
  valor.forma_posible (Z.of_nat (nfilas a)) (Z.of_nat (ncols a)) = true.

(** The [i]-th division point of [Ntotal] rows in [Nsections] bands, in
    closed form. *)
Definition corte (Ntotal Nsections i : nat) : nat :=
  (i * (Ntotal / Nsections) + i `min` (Ntotal mod Nsections))%nat.

(** The [i]-th band of [ary] cut at the points [corte]. *)
Definition banda (ary : vista) (Nsections i : nat) : vista :=
  Vista (base ary) (inicio ary + corte (vfilas ary) Nsections i)
        (corte (vfilas ary) Nsections (S i) - corte (vfilas ary) Nsections i)
        (vcols ary).

(** [int(np.sqrt(x))] *)
Definition lado_de (x : Z) : resultado Z :=
  match valor.sqrt x with
  | Ok raiz => int raiz
  | Error e => Error e
  end.

(** The elapsed times of [n] iterations in a row, on the clock readings [r]:
    each iteration reads the clock twice. *)
Fixpoint duraciones (r : nat → Q) (n : nat) : list Q :=
  match n with
  | O => []
  | S n' => (r 1%nat - r 0%nat)%Q :: duraciones (λ k, r (S (S k))) n'
  end.

(** What the iterations print. *)
Fixpoint informes (r : nat → Q) (ps lados : list Z) : list evento :=
  match ps, lados with
  | p :: ps', lado :: lados' =>
      Informe p lado :: Tiempo (r 1%nat - r 0%nat)%Q
        :: informes (λ k, r (S (S k))) ps' lados'
  | _, _ => []
  end.

(** [c] raises from [w]. *)
Definition falla {A : Type} (c : M A) (w : mundo) : Prop :=
  ∃ e, c w = Error e.

(** A view over a buffer of the store shows some array. *)
Definition legible (w : mundo) (v : vista) : Prop := ∃ a, vale w v a.

(** What the run leaves in the store: for every side a grid of that side in
    a buffer that was not there. *)
Definition grilla_construida (w w' : mundo) (lado : Z) : Prop :=
  ∃ l g, memoria w !! l = None ∧ memoria w' !! l = Some (datos g) ∧
         de_forma (Z.to_nat lado) (Z.to_nat lado) g ∧ binaria g.

(** The location of the exact square root next to the integer one. *)
Definition loc_raiz (n : Z) : location :=
  let r := n - Z.sqrt n * Z.sqrt n in
  if r =? 0 then loc_Exact else loc_Inexact (if r <=? Z.sqrt n then Lt else Gt).

(** The array of [R] rows and [C] columns whose cells are all [x]. *)
Definition constante (R C : nat) (x : Z) : ndarray :=
  Ndarray C (replicate R (replicate C x)).

(** [c] returns a view of the array [a] over a buffer that was not in the
    store, from its first row, and only allocates. *)
Definition aloja (c : M vista) (w : mundo) (a : ndarray) : Prop :=
  logra c w (λ v w',
    vale w' v a ∧ solo_aloja w w' ∧
    memoria w !! base v = None ∧ inicio v = 0%nat).

(** Every cell is a byte. *)
Definition de_bytes (a : ndarray) : Prop :=
  Forall (Forall (λ x, 0 <= x < 256)) (datos a).

(** The outputs [azar] with one bit changed: the bit that cell number [k] of
    a call of [randint] is read from. *)
Definition otra_celda (azar : nat → Z) (k : nat) : nat → Z :=
  λ n, if decide (n = (k / 4)%nat)
       then Z.lxor (azar n) (2 ^ (8 * Z.of_nat (k mod 4)))
       else azar n.

(** A world whose store holds one buffer, at address 0. *)
Definition mundo_con (buf : list (list Z)) : mundo :=
  Mundo {[ 0%nat := buf ]} (λ k, 257 * Z.of_nat k + 1)
        (λ k, inject_Z (Z.of_nat k)) [].

(** The 3 x 3 grid of living cells, and a game on it. *)
Definition llena : ndarray := Ndarray 3 [[1; 1; 1]; [1; 1; 1]; [1; 1; 1]].
Definition juego_lleno : JuegoDeLaVida := Juego 3 3 1 1 (Vista 0 0 3 3).

(** A grid of 5 rows and 2 columns. *)
Definition cinco : ndarray := Ndarray 2 [[1; 0]; [0; 1]; [1; 1]; [0; 0]; [1; 0]].
Definition vista_cinco : vista := Vista 0 0 5 2.

(** A block of four living cells in a grid of 4 x 4. *)
Definition bloque : ndarray :=
  Ndarray 4 [[0; 0; 0; 0]; [0; 1; 1; 0]; [0; 1; 1; 0]; [0; 0; 0; 0]].

(** A clock that runs backwards, one second a reading. *)
Definition mundo_atrasa : mundo :=
  Mundo ∅ (λ k, 257 * Z.of_nat k + 1) (λ k, inject_Z (- Z.of_nat k)) [].

(** A clock that is set back between two iterations, and never within
    one: its readings are 0, 5, 1, 6, 2, 7, ... *)
Definition mundo_ajustado : mundo :=
  Mundo ∅ (λ k, 257 * Z.of_nat k + 1)
        (λ k, inject_Z (Z.of_nat (k / 2 + 5 * (k mod 2)))) [].

(** A grid of bytes whose middle cell has neighbours that add up to 259. *)
Definition desbordada : ndarray :=
  Ndarray 3 [[255; 4; 0]; [0; 0; 0]; [0; 0; 0]].

(** * Properties *)

(** ** Rolling a list *)

Section Roll.
Context {A : Type}.
Implicit Types (l : list A) (shift : Z).

Lemma roll_lista_length l shift : length (valor.roll_lista l shift) = length l.
Proof.
  unfold valor.roll_lista. rewrite length_app, length_drop, length_take. lia.
Qed.

(** Position [i] of the rolled list holds what was at [i - shift], modulo
    the length. *)
Lemma roll_lista_lookup l shift i :
  (i < length l)%nat →
  valor.roll_lista l shift !! i = l !! envuelve (length l) i (- shift).
Proof.
  intros Hi. unfold valor.roll_lista, envuelve.
  destruct (length l) as [|n'] eqn:Hn; [lia|].
  rewrite <- Hn in *. set (n := Z.of_nat (length l)).
  assert (Hnpos : 0 < n) by (unfold n; lia).
  pose proof (Z.mod_pos_bound shift n Hnpos) as Hb.
  pose proof (Z.div_mod shift n ltac:(lia)) as Hdm.
  set (s := shift mod n) in *. set (q := shift / n) in *.
  destruct (decide (i < Z.to_nat s)%nat) as [Hlt|Hge].
  - rewrite lookup_app_l by (rewrite length_drop; lia).
    rewrite lookup_drop. f_equal.
    assert (Hm : (Z.of_nat i + - shift) mod n = Z.of_nat i - s + n).
    { symmetry. apply (Z.mod_unique _ _ (- q - 1)); lia. }
    rewrite Hm. unfold n. lia.
  - rewrite lookup_app_r by (rewrite length_drop; lia).
    rewrite length_drop, lookup_take_lt by (unfold n in *; lia).
    f_equal.
    assert (Hm : (Z.of_nat i + - shift) mod n = Z.of_nat i - s).
    { symmetry. apply (Z.mod_unique _ _ (- q)); unfold n in *; lia. }
    rewrite Hm. unfold n in *. lia.
Qed.
End Roll.

Lemma envuelve_lt n i d : (0 < n)%nat → (envuelve n i d < n)%nat.
Proof.
  intros Hn. unfold envuelve.
  pose proof (Z.mod_pos_bound (Z.of_nat i + d) (Z.of_nat n) ltac:(lia)). lia.
Qed.

(** ** Cells of the numpy operations *)

Lemma celda_de_opt a i j x : celda_opt a i j = Some x → celda a i j = x.
Proof. unfold celda, celda_opt. by intros ->. Qed.

Lemma de_forma_celda R C a i j :
  de_forma R C a → (i < R)%nat → (j < C)%nat →
  celda_opt a i j = Some (celda a i j).
Proof.
  intros (HR & HC & Hwf) Hi Hj. unfold celda, celda_opt, nfilas in *.
  destruct (lookup_lt_is_Some_2 (datos a) i ltac:(lia)) as [fila Hfila].
  rewrite Hfila. simpl.
  pose proof (Forall_lookup_1 _ _ _ _ Hwf Hfila) as Hlen. simpl in Hlen.
  destruct (lookup_lt_is_Some_2 fila j ltac:(lia)) as [x Hx].
  by rewrite Hx.
Qed.

Lemma celda_opt_roll0 R C a shift i j :
  de_forma R C a → (i < R)%nat →
  celda_opt (valor.roll a shift Eje0) i j = celda_opt a (envuelve R i (- shift)) j.
Proof.
  intros (HR & _ & _) Hi. unfold celda_opt, nfilas in *. simpl.
  rewrite roll_lista_lookup by lia. by rewrite HR.
Qed.

Lemma celda_opt_roll1 R C a shift i j :
  de_forma R C a → (i < R)%nat → (j < C)%nat →
  celda_opt (valor.roll a shift Eje1) i j = celda_opt a i (envuelve C j (- shift)).
Proof.
  intros (HR & HC & Hwf) Hi Hj. unfold celda_opt, nfilas in *. simpl.
  rewrite list_lookup_fmap.
  destruct (lookup_lt_is_Some_2 (datos a) i ltac:(lia)) as [fila Hfila].
  rewrite Hfila. simpl.
  pose proof (Forall_lookup_1 _ _ _ _ Hwf Hfila) as Hlen. simpl in Hlen.
  rewrite roll_lista_lookup by lia. by rewrite Hlen, HC.
Qed.

Lemma de_forma_roll R C a shift axis :
  de_forma R C a → de_forma R C (valor.roll a shift axis).
Proof.
  intros (HR & HC & Hwf). unfold de_forma, nfilas, bien_formada in *.
  destruct axis; simpl.
  - rewrite roll_lista_length. split_and!; [done..|].
    unfold valor.roll_lista. apply Forall_app. split.
    + by apply Forall_drop.
    + by apply Forall_take.
  - rewrite length_map. split_and!; [done..|].
    apply Forall_fmap. eapply Forall_impl; [exact Hwf|].
    intros fila Hf. simpl. by rewrite roll_lista_length.
Qed.

(** Two rolls, one per axis: the cell shifted by [(dr, dc)] on the torus. *)
Lemma celda_opt_roll_roll R C g dr dc i j :
  de_forma R C g → (i < R)%nat → (j < C)%nat →
  celda_opt (valor.roll (valor.roll g dr Eje0) dc Eje1) i j
  = Some (celda g (envuelve R i (- dr)) (envuelve C j (- dc))).
Proof.
  intros Hg Hi Hj.
  rewrite (celda_opt_roll1 R C) by eauto using de_forma_roll.
  rewrite (celda_opt_roll0 R C) by (eauto using envuelve_lt with lia).
  apply (de_forma_celda R C); [done|apply envuelve_lt; lia..].
Qed.

Lemma celda_opt_por_celda f a b i j :
  celda_opt (valor.por_celda f a b) i j
  = x ← celda_opt a i j; y ← celda_opt b i j; Some (f x y).
Proof.
  unfold celda_opt. simpl. rewrite lookup_zip_with.
  destruct (datos a !! i) as [fa|]; simpl; [|done].
  destruct (datos b !! i) as [fb|]; simpl.
  - rewrite lookup_zip_with. by destruct (fa !! j).
  - by destruct (fa !! j).
Qed.

Lemma celda_opt_igual a k i j :
  celda_opt (valor.igual a k) i j = (λ x, Z.b2z (x =? k)) <$> celda_opt a i j.
Proof.
  unfold celda_opt. simpl. rewrite list_lookup_fmap.
  destruct (datos a !! i) as [fa|]; simpl; [|done].
  by rewrite list_lookup_fmap.
Qed.

Lemma celda_opt_astype a i j :
  celda_opt (valor.astype_uint8 a) i j = (λ x, x mod 256) <$> celda_opt a i j.
Proof.
  unfold celda_opt. simpl. rewrite list_lookup_fmap.
  destruct (datos a !! i) as [fa|]; simpl; [|done].
  by rewrite list_lookup_fmap.
Qed.

Lemma de_forma_por_celda R C f a b :
  de_forma R C a → de_forma R C b → de_forma R C (valor.por_celda f a b).
Proof.
  intros (HRa & HCa & Hwa) (HRb & HCb & Hwb).
  unfold de_forma, nfilas, bien_formada in *. simpl.
  rewrite length_zip_with. split_and!; [lia|done|].
  apply Forall_lookup. intros i fila Hfila.
  rewrite lookup_zip_with in Hfila.
  destruct (datos a !! i) as [fa|] eqn:Hfa; simpl in Hfila; [|done].
  destruct (datos b !! i) as [fb|] eqn:Hfb; simpl in Hfila; [|done].
  injection Hfila as <-. rewrite length_zip_with.
  pose proof (Forall_lookup_1 _ _ _ _ Hwa Hfa) as H1.
  pose proof (Forall_lookup_1 _ _ _ _ Hwb Hfb) as H2. simpl in *. lia.
Qed.

Lemma de_forma_map R C (f : Z → Z) a :
  de_forma R C a → de_forma R C (Ndarray (ncols a) (map (map f) (datos a))).
Proof.
  intros (HR & HC & Hw). unfold de_forma, nfilas, bien_formada in *. simpl.
  rewrite length_map. split_and!; [done..|].
  apply Forall_fmap. eapply Forall_impl; [exact Hw|].
  intros fila Hf. simpl. by rewrite length_map.
Qed.

Lemma binaria_celda_opt a :
  binaria a ↔ ∀ i j x, celda_opt a i j = Some x → x = 0 ∨ x = 1.
Proof.
  unfold binaria, celda_opt. split.
  - intros H i j x Hx.
    destruct (datos a !! i) as [fila|] eqn:Hf; simpl in Hx; [|done].
    pose proof (Forall_lookup_1 _ _ _ _ H Hf) as Hfila.
    by apply (Forall_lookup_1 _ _ _ _ Hfila Hx).
  - intros H. apply Forall_lookup. intros i fila Hf.
    apply Forall_lookup. intros j x Hx. apply (H i j). by rewrite Hf.
Qed.

Lemma binaria_celda a i j : binaria a → celda a i j = 0 ∨ celda a i j = 1.
Proof.
  intros H. unfold celda.
  destruct (datos a !! i ≫= (.!! j)) as [x|] eqn:Hx; simpl; [|by left].
  by apply (proj1 (binaria_celda_opt a) H i j).
Qed.

(** ** One generation, cell by cell *)

Lemma de_forma_vecinos_de R C g : de_forma R C g → de_forma R C (vecinos_de g).
Proof.
  intros Hg. unfold vecinos_de, valor.suma.
  repeat apply de_forma_por_celda; by repeat apply de_forma_roll.
Qed.

(** Eight cells of 0 or 1 add up without wrapping around a byte. *)
Lemma suma_sin_desborde x1 x2 x3 x4 x5 x6 x7 x8 :
  0 <= x1 <= 1 → 0 <= x2 <= 1 → 0 <= x3 <= 1 → 0 <= x4 <= 1 →
  0 <= x5 <= 1 → 0 <= x6 <= 1 → 0 <= x7 <= 1 → 0 <= x8 <= 1 →
  (((((((x1 + x2) mod 256 + x3) mod 256 + x4) mod 256 + x5) mod 256
      + x6) mod 256 + x7) mod 256 + x8) mod 256
  = x1 + x2 + x3 + x4 + x5 + x6 + x7 + x8.
Proof.
  intros.
  rewrite (Z.mod_small (x1 + x2)) by lia.
  rewrite (Z.mod_small (x1 + x2 + x3)) by lia.
  rewrite (Z.mod_small (x1 + x2 + x3 + x4)) by lia.
  rewrite (Z.mod_small (x1 + x2 + x3 + x4 + x5)) by lia.
  rewrite (Z.mod_small (x1 + x2 + x3 + x4 + x5 + x6)) by lia.
  rewrite (Z.mod_small (x1 + x2 + x3 + x4 + x5 + x6 + x7)) by lia.
  rewrite Z.mod_small by lia. done.
Qed.

(** [vecinos_de] is the toroidal neighbour count of the specification. *)
Lemma celda_vecinos_de R C g i j :
  de_forma R C g → binaria g → (i < R)%nat → (j < C)%nat →
  celda_opt (vecinos_de g) i j = Some (vecinos_toroidales g i j).
Proof.
  intros Hg Hbin Hi Hj. unfold vecinos_de, valor.suma.
  rewrite !celda_opt_por_celda.
  rewrite !(celda_opt_roll_roll R C) by done. simpl.
  change (- (1)) with (-1). change (- 0) with 0. change (- (-1)) with 1.
  unfold vecinos_toroidales.
  destruct Hg as (HR & HC & _). rewrite HR, HC.
  assert (Hc : ∀ a b, 0 <= celda g a b <= 1).
  { intros a b. destruct (binaria_celda g a b Hbin) as [-> | ->]; lia. }
  f_equal. rewrite suma_sin_desborde by apply Hc. lia.
Qed.

Lemma de_forma_regla R C g v :
  de_forma R C g → de_forma R C v → de_forma R C (regla g v).
Proof.
  intros Hg Hv. unfold regla, valor.astype_uint8, valor.o, valor.y.
  apply (de_forma_map R C (λ x, x mod 256)).
  repeat apply de_forma_por_celda; unfold valor.igual;
    by apply (de_forma_map R C).
Qed.

Lemma de_forma_generacion R C g : de_forma R C g → de_forma R C (generacion g).
Proof.
  intros Hg. unfold generacion.
  by apply de_forma_regla; [|apply de_forma_vecinos_de].
Qed.

Lemma regla_celda_b2z x v :
  regla_celda x v = Z.b2z ((v =? 3) || ((x =? 1) && (v =? 2))).
Proof. unfold regla_celda. by destruct (v =? 3), (x =? 1), (v =? 2). Qed.

Lemma regla_celda_binaria x v : regla_celda x v = 0 ∨ regla_celda x v = 1.
Proof.
  rewrite regla_celda_b2z.
  destruct ((v =? 3) || ((x =? 1) && (v =? 2))); simpl; auto.
Qed.

Lemma regla_celda_1 x v : regla_celda x v = 1 ↔ v = 3 ∨ (x = 1 ∧ v = 2).
Proof.
  rewrite regla_celda_b2z.
  destruct (Z.eqb_spec v 3), (Z.eqb_spec x 1), (Z.eqb_spec v 2);
    simpl; split; intros; try lia; try discriminate.
Qed.

Lemma celda_opt_regla g v i j :
  celda_opt (regla g v) i j
  = vc ← celda_opt v i j; x ← celda_opt g i j; Some (regla_celda x vc).
Proof.
  unfold regla, valor.o, valor.y.
  rewrite celda_opt_astype, !celda_opt_por_celda, !celda_opt_igual.
  destruct (celda_opt v i j) as [vc|]; simpl; [|done].
  by destruct (celda_opt g i j).
Qed.

(** Whatever the arrays, the rule writes only 0 and 1. *)
Lemma binaria_regla g v : binaria (regla g v).
Proof.
  apply binaria_celda_opt. intros i j x. rewrite celda_opt_regla.
  destruct (celda_opt v i j) as [vc|]; simpl; [|done].
  destruct (celda_opt g i j) as [xc|]; simpl; [|done].
  intros [= <-]. apply regla_celda_binaria.
Qed.

Lemma binaria_generacion g : binaria (generacion g).
Proof. apply binaria_regla. Qed.

Lemma celda_generacion R C g i j :
  de_forma R C g → binaria g → (i < R)%nat → (j < C)%nat →
  celda (generacion g) i j = regla_celda (celda g i j) (vecinos_toroidales g i j).
Proof.
  intros Hg Hbin Hi Hj. apply celda_de_opt.
  unfold generacion. rewrite celda_opt_regla.
  rewrite (celda_vecinos_de R C) by done. simpl.
  by rewrite (de_forma_celda R C g) by done.
Qed.

(** The value-level statement of the rule. *)
Lemma generacion_regla g i j :
  bien_formada g → binaria g → (i < nfilas g)%nat → (j < ncols g)%nat →
  (celda (generacion g) i j = 1 ↔ vive g i j) ∧
  (¬ vive g i j → celda (generacion g) i j = 0).
Proof.
  intros Hwf Hbin Hi Hj.
  rewrite (celda_generacion (nfilas g) (ncols g)) by done.
  unfold vive. split; [apply regla_celda_1|].
  intros Hno.
  destruct (regla_celda_binaria (celda g i j) (vecinos_toroidales g i j))
    as [H0|H1]; [done|].
  by apply regla_celda_1 in H1.
Qed.

(** Generations in a row keep the shape and the cell domain. *)
Lemma de_forma_generaciones R C n g :
  de_forma R C g → de_forma R C (Nat.iter n generacion g).
Proof. intros Hg. induction n; simpl; [done|]. by apply de_forma_generacion. Qed.

Lemma binaria_generaciones n g : binaria g → binaria (Nat.iter n generacion g).
Proof. intros Hg. destruct n; simpl; [done|]. apply binaria_generacion. Qed.

(** ** Reasoning about computations *)

Section Logra.
Context {A B : Type}.

Lemma logra_ret (a : A) w (Φ : A → mundo → Prop) : Φ a w → logra (mret a) w Φ.
Proof. done. Qed.

Lemma logra_bind (c : M A) (k : A → M B) w (Φ : B → mundo → Prop) :
  logra c w (λ a w', logra (k a) w' Φ) → logra (c ≫= k) w Φ.
Proof.
  unfold logra, mbind, M_bind. by destruct (c w) as [[a w']|e].
Qed.

Lemma logra_mono (c : M A) w (Φ Ψ : A → mundo → Prop) :
  logra c w Φ → (∀ a w', Φ a w' → Ψ a w') → logra c w Ψ.
Proof.
  unfold logra. destruct (c w) as [[a w']|e]; [|done]. intros H HΦ. by apply HΦ.
Qed.

Lemma logra_inv (c : M A) w (Φ : A → mundo → Prop) :
  logra c w Φ → ∃ a w', c w = Ok (a, w') ∧ Φ a w'.
Proof.
  unfold logra. destruct (c w) as [[a w']|e]; [|done]. eauto.
Qed.
End Logra.

Lemma conserva_refl w : conserva w w.
Proof. by unfold conserva. Qed.

Lemma conserva_trans w1 w2 w3 : conserva w1 w2 → conserva w2 w3 → conserva w1 w3.
Proof.
  intros (Hm1 & Hr1 & Hs1) (Hm2 & Hr2 & Hs2). unfold conserva.
  split_and!; [by etrans|congruence..].
Qed.

Lemma solo_aloja_refl w : solo_aloja w w.
Proof. split; [apply conserva_refl|done]. Qed.

Lemma solo_aloja_trans w1 w2 w3 :
  solo_aloja w1 w2 → solo_aloja w2 w3 → solo_aloja w1 w3.
Proof.
  intros [Hc1 Ha1] [Hc2 Ha2]. split; [by eapply conserva_trans|congruence].
Qed.

(** *** Shapes *)

Lemma forma_posible_spec filas columnas :
  valor.forma_posible filas columnas = true ↔
  0 <= filas < 2 ^ 63 ∧ 0 <= columnas < 2 ^ 63 ∧
  (filas = 0 ∨ columnas = 0 ∨ filas * columnas < 2 ^ 63).
Proof.
  unfold valor.forma_posible.
  rewrite !andb_true_iff, !orb_true_iff, !Z.leb_le, !Z.ltb_lt, !Z.eqb_eq.
  tauto.
Qed.

Lemma forma_posible_menor filas filas' columnas :
  0 <= filas' <= filas →
  valor.forma_posible filas columnas = true →
  valor.forma_posible filas' columnas = true.
Proof.
  rewrite !forma_posible_spec. intros Hf (Hf1 & Hc & Hp).
  split_and!; try lia.
  destruct Hp as [Hp|[Hp|Hp]]; [left; lia|right; left; lia|].
  right. right. nia.
Qed.

Lemma cabe_menor a b :
  (nfilas b ≤ nfilas a)%nat → ncols b = ncols a → cabe a → cabe b.
Proof.
  unfold cabe. intros Hf ->. apply forma_posible_menor. lia.
Qed.

Lemma length_roll_lista {A : Type} (l : list A) shift :
  length (valor.roll_lista l shift) = length l.
Proof.
  unfold valor.roll_lista. rewrite length_app, length_drop, length_take. lia.
Qed.

Lemma forma_roll shift axis x :
  (nfilas (valor.roll x shift axis) ≤ nfilas x)%nat ∧
  ncols (valor.roll x shift axis) = ncols x.
Proof.
  unfold nfilas. destruct axis; simpl.
  - by rewrite length_roll_lista.
  - by rewrite length_map.
Qed.

Lemma forma_por_celda f x y :
  (nfilas (valor.por_celda f x y) ≤ nfilas x)%nat ∧
  ncols (valor.por_celda f x y) = ncols x.
Proof. unfold nfilas. simpl. rewrite length_zip_with. split; [lia|done]. Qed.

Lemma forma_igual k x :
  (nfilas (valor.igual x k) ≤ nfilas x)%nat ∧ ncols (valor.igual x k) = ncols x.
Proof. unfold nfilas. simpl. by rewrite length_map. Qed.

Lemma forma_astype x :
  (nfilas (valor.astype_uint8 x) ≤ nfilas x)%nat ∧
  ncols (valor.astype_uint8 x) = ncols x.
Proof. unfold nfilas. simpl. by rewrite length_map. Qed.

Lemma leer_en_Some m v a :
  leer_en m v = Some a ↔
  ∃ buf, m !! base v = Some buf ∧
    valor.forma_posible (Z.of_nat (vfilas v)) (Z.of_nat (vcols v)) = true ∧
    a = Ndarray (vcols v) (take (vfilas v) (drop (inicio v) buf)).
Proof.
  unfold leer_en. destruct (m !! base v) as [buf|]; simpl.
  - destruct (valor.forma_posible _ _); split.
    + intros [= <-]. by exists buf.
    + by intros (? & [= <-] & _ & ->).
    + done.
    + by intros (? & _ & ? & _).
  - split; [done|]. by intros (? & ? & _).
Qed.

Lemma leer_en_subseteq (m m' : gmap nat (list (list Z))) v a :
  m ⊆ m' → leer_en m v = Some a → leer_en m' v = Some a.
Proof.
  intros Hsub. rewrite !leer_en_Some. intros (buf & Hb & Hf & ->).
  exists buf. by rewrite (lookup_weaken _ _ _ _ Hb Hsub).
Qed.

(** What a view shows has the shape of an array. *)
Lemma vale_forma w v a :
  vale w v a →
  valor.forma_posible (Z.of_nat (vfilas v)) (Z.of_nat (vcols v)) = true.
Proof. unfold vale. rewrite leer_en_Some. by intros (buf & _ & Hf & _). Qed.

Lemma vale_cabe w v a : vale w v a → cabe a.
Proof.
  unfold vale, cabe. rewrite leer_en_Some. intros (buf & _ & Hf & ->).
  unfold nfilas. simpl. eapply forma_posible_menor; [|exact Hf].
  rewrite length_take. lia.
Qed.

Lemma vale_conserva w w' v a : conserva w w' → vale w v a → vale w' v a.
Proof. intros (Hm & _). by apply leer_en_subseteq. Qed.

Lemma vale_solo_aloja w w' v a : solo_aloja w w' → vale w v a → vale w' v a.
Proof. intros [Hc _]. by apply vale_conserva. Qed.

(** *** Reading and allocating *)

Lemma leer_spec w v a : vale w v a → logra (leer v) w (λ x w', x = a ∧ w' = w).
Proof. unfold vale, logra, leer. by intros ->. Qed.

Lemma nuevo_spec w a : cabe a → calcula (nuevo a) w a.
Proof.
  intros Ha.
  unfold calcula, logra, nuevo, vale, solo_aloja, conserva. simpl.
  split_and!; [|apply insert_subseteq|done..].
  - apply leer_en_Some. exists (datos a). simpl.
    rewrite lookup_insert_eq. split_and!; [done..|].
    unfold nfilas. rewrite drop_0, firstn_all. by destruct a.
  - apply not_elem_of_dom, is_fresh.
Qed.

(** The operations of the program keep the shape of their first argument
    (the rows may only become fewer), so that their result is an array
    whenever their argument is. *)
Lemma op1_spec f w v a :
  (∀ x, (nfilas (f x) ≤ nfilas x)%nat ∧ ncols (f x) = ncols x) →
  vale w v a → calcula (np.op1 f v) w (f a).
Proof.
  intros Hf Hv. unfold calcula, np.op1. apply logra_bind.
  eapply logra_mono; [by apply leer_spec|].
  intros x w' [-> ->]. apply nuevo_spec.
  destruct (Hf a). eapply cabe_menor; [done..|]. by eapply vale_cabe.
Qed.

Lemma op2_spec f w v1 v2 a b :
  (∀ x y, (nfilas (f x y) ≤ nfilas x)%nat ∧ ncols (f x y) = ncols x) →
  vale w v1 a → vale w v2 b → calcula (np.op2 f v1 v2) w (f a b).
Proof.
  intros Hf Hv1 Hv2. unfold calcula, np.op2. apply logra_bind.
  eapply logra_mono; [by apply leer_spec|].
  intros x w' [-> ->]. apply logra_bind.
  eapply logra_mono; [by apply leer_spec|].
  intros x' w' [-> ->]. apply nuevo_spec.
  destruct (Hf a b). eapply cabe_menor; [done..|]. by eapply vale_cabe.
Qed.

Lemma calcula_ret w v a : vale w v a → calcula (mret v) w a.
Proof. intros Hv. split; [done|apply solo_aloja_refl]. Qed.

Lemma calcula_bind (c : M vista) (k : vista → M vista) w a b :
  calcula c w a →
  (∀ v w', vale w' v a → solo_aloja w w' → calcula (k v) w' b) →
  calcula (c ≫= k) w b.
Proof.
  intros Hc Hk. unfold calcula. apply logra_bind.
  eapply logra_mono; [exact Hc|].
  intros v w' [Hv Hw]. eapply logra_mono; [by apply Hk|].
  intros v' w'' [Hv' Hw']. split; [done|by eapply solo_aloja_trans].
Qed.

(** One numpy call of a sequence: its result comes with a new world, into
    which what is known of the earlier arrays is carried. *)
Ltac lleva H :=
  repeat match goal with
  | Hv : vale ?w0 _ _ |- _ =>
      lazymatch type of H with
      | solo_aloja w0 _ => apply (vale_solo_aloja _ _ _ _ H) in Hv
      end
  end.

Ltac forma_np :=
  first [ apply forma_roll | apply forma_igual | apply forma_astype
        | apply forma_por_celda ].

Ltac paso_np :=
  eapply calcula_bind;
  [ first [ eapply op1_spec; [forma_np|eassumption]
          | eapply op2_spec; [forma_np|eassumption..] ]
  | let v := fresh "v" in
    let w := fresh "w" in
    let Hv := fresh "Hv" in
    let Hw := fresh "Hw" in
    intros v w Hv Hw; lleva Hw; clear Hw ].

(** *** The methods of JuegoDeLaVida *)

Lemma contar_vecinos_spec w subgrilla g :
  vale w subgrilla g → calcula (contar_vecinos subgrilla) w (vecinos_de g).
Proof.
  intros Hg. unfold contar_vecinos, np.roll, np.add.
  do 23 paso_np. by apply calcula_ret.
Qed.

Lemma aplicar_regla_spec w grilla vecinos g v :
  vale w grilla g → vale w vecinos v →
  calcula (aplicar_regla grilla vecinos) w (regla g v).
Proof.
  intros Hg Hv.
  unfold aplicar_regla, np.equal, np.bitwise_and, np.bitwise_or, np.astype_uint8.
  do 5 paso_np. exact (op1_spec valor.astype_uint8 _ _ _ forma_astype Hv4).
Qed.

(** One step of a game: the grid becomes a new array, the next generation. *)
Lemma step_spec w self g :
  vale w (grilla self) g →
  logra (step self) w (λ self' w',
    vale w' (grilla self') (generacion g) ∧ solo_aloja w w' ∧
    self' = con_grilla self (grilla self')).
Proof.
  intros Hg. unfold step. apply logra_bind.
  eapply logra_mono; [by apply contar_vecinos_spec|].
  intros vecinos w1 [Hv Hw1]. apply logra_bind.
  eapply logra_mono.
  { apply aplicar_regla_spec; [by eapply vale_solo_aloja|done]. }
  intros g' w2 [Hg' Hw2]. apply logra_ret.
  split_and!; [done|by eapply solo_aloja_trans|done].
Qed.

(** *** Loops *)

Lemma for_range_spec {S : Type} (I : nat → S → mundo → Prop) n
    (cuerpo : S → M S) s w :
  I 0%nat s w →
  (∀ k s w, (k < n)%nat → I k s w → logra (cuerpo s) w (I (Datatypes.S k))) →
  logra (for_range n cuerpo s) w (I n).
Proof.
  revert I s w. induction n as [|n IH]; intros I s w H0 Hstep; simpl.
  - by apply logra_ret.
  - apply logra_bind. eapply logra_mono; [apply (Hstep 0%nat); [lia|done]|].
    intros s' w' Hs'. apply (IH (λ k, I (Datatypes.S k))); [done|].
    intros k s'' w'' Hk. apply Hstep. lia.
Qed.

(** [n] steps of a game give the [n]-th generation of its grid. *)
Lemma pasos_spec n w self g :
  vale w (grilla self) g →
  logra (for_range n step self) w (λ self' w',
    vale w' (grilla self') (Nat.iter n generacion g) ∧ solo_aloja w w').
Proof.
  intros Hg.
  apply (for_range_spec (λ k self' w',
    vale w' (grilla self') (Nat.iter k generacion g) ∧ solo_aloja w w')).
  - split; [done|apply solo_aloja_refl].
  - intros k s w' _ [Hs Hw']. eapply logra_mono; [by apply step_spec|].
    intros s' w'' (Hs' & Hw'' & _). split; [done|by eapply solo_aloja_trans].
Qed.

Lemma run_spec w self g :
  vale w (grilla self) g →
  logra (run self) w (λ self' w',
    vale w' (grilla self') (Nat.iter (Z.to_nat (pasos self)) generacion g) ∧
    solo_aloja w w').
Proof. apply pasos_spec. Qed.

(** *** Creating a game *)

Lemma randint2_ok azar filas columnas :
  valor.forma_posible filas columnas = true →
  ∃ a, valor.randint2 azar filas columnas
       = Ok (a, λ k, azar (k + (Z.to_nat filas * Z.to_nat columnas + 3) / 4)%nat) ∧
       de_forma (Z.to_nat filas) (Z.to_nat columnas) a ∧ binaria a ∧
       ∀ i j, (i < Z.to_nat filas)%nat → (j < Z.to_nat columnas)%nat →
         celda a i j
         = valor.celda_sorteada azar (i * Z.to_nat columnas + j)%nat.
Proof.
  intros Hf. unfold valor.randint2. rewrite Hf.
  eexists. split; [done|].
  set (f := Z.to_nat filas). set (c := Z.to_nat columnas).
  split_and!.
  - unfold de_forma, nfilas, bien_formada. simpl.
    rewrite length_map, length_seq. split_and!; [done..|].
    apply Forall_fmap, Forall_forall. intros i _. simpl.
    by rewrite length_map, length_seq.
  - unfold binaria. simpl. apply Forall_fmap, Forall_forall. intros i _. simpl.
    apply Forall_fmap, Forall_forall. intros j _. simpl.
    unfold valor.celda_sorteada. destruct (Z.testbit _ _); auto.
  - intros i j Hi Hj. unfold celda. simpl.
    rewrite list_lookup_fmap, lookup_seq_lt by lia. simpl.
    rewrite list_lookup_fmap, lookup_seq_lt by lia. done.
Qed.

Lemma init_spec w filas columnas pasos procesos :
  valor.forma_posible filas columnas = true →
  logra (__init__ filas columnas pasos procesos) w (λ self w',
    ∃ g, vale w' (grilla self) g ∧ conserva w w' ∧
      self = Juego filas columnas pasos procesos (grilla self) ∧
      grilla self = Vista (fresh (dom (memoria w))) 0
                      (Z.to_nat filas) (Z.to_nat columnas) ∧
      memoria w' !! fresh (dom (memoria w)) = Some (datos g) ∧
      de_forma (Z.to_nat filas) (Z.to_nat columnas) g ∧ binaria g ∧
      (∀ i j, (i < Z.to_nat filas)%nat → (j < Z.to_nat columnas)%nat →
         celda g i j
         = valor.celda_sorteada (azar w) (i * Z.to_nat columnas + j)%nat) ∧
      azar w'
      = λ k, azar w (k + (Z.to_nat filas * Z.to_nat columnas + 3) / 4)%nat).
Proof.
  intros Hf. unfold __init__. apply logra_bind.
  destruct (randint2_ok (azar w) filas columnas Hf) as (a & Ha & Hforma & Hbin & Hcel).
  unfold logra at 1, np.random_randint2. rewrite Ha.
  set (w0 := Mundo _ _ _ _).
  assert (Hcabe : cabe a).
  { unfold cabe. destruct Hforma as (-> & -> & _).
    pose proof (proj1 (forma_posible_spec _ _) Hf).
    by rewrite !Z2Nat.id by lia. }
  destruct (nuevo_spec w0 a Hcabe) as [Hv [Hcons Haz]]. simpl in *.
  apply logra_ret. exists a. simpl.
  destruct Hforma as (HR & HC & Hwf).
  split_and!; try done.
  - by rewrite HR, HC.
  - apply lookup_insert_eq.
Qed.

Lemma init_error w filas columnas pasos procesos :
  valor.forma_posible filas columnas = false →
  __init__ filas columnas pasos procesos w = Error ValueError.
Proof.
  intros Hf.
  unfold __init__, mbind, M_bind, np.random_randint2, valor.randint2.
  by rewrite Hf.
Qed.

(** *** worker *)

(** The worker returns a view of the [pasos]-th generation of the array its
    argument shows; the store it was given is kept as it was. *)
Lemma worker_spec w subgrilla pasos g :
  vale w subgrilla g →
  logra (worker subgrilla pasos) w (λ r w',
    vale w' r (Nat.iter (Z.to_nat pasos) generacion g) ∧ conserva w w').
Proof.
  intros Hg. unfold worker. apply logra_bind.
  eapply logra_mono; [by eapply init_spec, vale_forma|].
  intros juego w1 (g0 & _ & Hw1 & _). apply logra_bind.
  eapply logra_mono.
  { apply (pasos_spec _ _ (con_grilla juego subgrilla) g).
    simpl. by eapply vale_conserva. }
  intros juego' w2 [Hg' [Hw2 _]]. apply logra_ret.
  split; [done|by eapply conserva_trans].
Qed.

(** ** np.array_split *)

Section ArraySplit.
Local Open Scope nat_scope.

Lemma cumsum_desde_nth acc l i :
  i < length l →
  nth i (valor.cumsum_desde acc l) 0 = acc + sum_list (take (S i) l).
Proof.
  revert acc i. induction l as [|x l IH]; intros acc i Hi; simpl in *; [lia|].
  destruct i as [|i].
  - simpl. destruct l; simpl; lia.
  - rewrite IH by lia. simpl. lia.
Qed.

Lemma div_points_nth N n i :
  0 < n → i ≤ n → nth i (valor.div_points N n) 0 = corte N n i.
Proof.
  intros Hn Hi. unfold valor.div_points, valor.cumsum, valor.section_sizes, corte.
  pose proof (Nat.mod_upper_bound N n ltac:(lia)) as He.
  set (q := N / n) in *. set (e := N mod n) in *.
  rewrite cumsum_desde_nth
    by (simpl; rewrite length_app, !length_replicate; lia).
  simpl. rewrite take_app, !take_replicate, length_replicate.
  rewrite sum_list_with_app, !sum_list_replicate.
  destruct (decide (i ≤ e)).
  - rewrite (Nat.min_l i e), (Nat.min_l (i - e)) by lia. nia.
  - rewrite (Nat.min_r i e), (Nat.min_l (i - e)) by lia. nia.
Qed.

Lemma corte_0 N n : corte N n 0 = 0.
Proof. unfold corte. lia. Qed.

Lemma corte_total N n : 0 < n → corte N n n = N.
Proof.
  intros Hn. unfold corte.
  pose proof (Nat.mod_upper_bound N n ltac:(lia)).
  pose proof (Nat.div_mod N n ltac:(lia)). nia.
Qed.

(** A band has [N / n] rows, and one more if it is among the first
    [N mod n]. *)
Lemma corte_S N n i :
  corte N n (S i) = corte N n i + N / n + (if decide (i < N mod n) then 1 else 0).
Proof. unfold corte. case_decide; nia. Qed.

Lemma corte_mono N n i j : i ≤ j → corte N n i ≤ corte N n j.
Proof. intros Hij. unfold corte. nia. Qed.

Lemma corte_le N n i : 0 < n → i ≤ n → corte N n i ≤ N.
Proof.
  intros Hn Hi. rewrite <- (corte_total N n Hn) at 2. by apply corte_mono.
Qed.

(** No band has more rows than the array. *)
Lemma banda_menor ary n i : vfilas (banda ary n i) ≤ vfilas ary.
Proof.
  unfold banda. simpl. rewrite corte_S.
  destruct (decide (n = 0)) as [->|Hn].
  - rewrite Nat.div_0_r, Nat.mod_0_r. case_decide; lia.
  - pose proof (Nat.div_mod_eq (vfilas ary) n).
    pose proof (Nat.mod_upper_bound (vfilas ary) n Hn).
    case_decide; nia.
Qed.

Lemma rebanada_banda ary n i :
  0 < n → i < n →
  np.rebanada ary (nth i (valor.div_points (vfilas ary) n) 0)
                  (nth (S i) (valor.div_points (vfilas ary) n) 0)
  = banda ary n i.
Proof.
  intros Hn Hi. rewrite !div_points_nth by lia.
  unfold np.rebanada, banda.
  pose proof (corte_le (vfilas ary) n i Hn ltac:(lia)).
  pose proof (corte_le (vfilas ary) n (S i) Hn ltac:(lia)).
  by rewrite !Nat.min_l by lia.
Qed.

(** What [np.array_split] returns for a positive number of sections. *)
Lemma array_split_ok ary n w :
  (1 ≤ n)%Z →
  np.array_split ary n w = Ok (banda ary (Z.to_nat n) <$> seq 0 (Z.to_nat n), w).
Proof.
  intros Hn. unfold np.array_split.
  destruct (Z.leb_spec n 0); [lia|].
  unfold mret, M_ret. do 2 f_equal.
  apply map_ext_in. intros i Hi%in_seq. apply rebanada_banda; lia.
Qed.

Lemma array_split_error ary n w :
  (n ≤ 0)%Z → np.array_split ary n w = Error ValueError.
Proof.
  intros Hn. unfold np.array_split. by destruct (Z.leb_spec n 0); [|lia].
Qed.

Lemma bandas_lookup ary n i b :
  (banda ary n <$> seq 0 n) !! i = Some b ↔ i < n ∧ b = banda ary n i.
Proof.
  rewrite list_lookup_fmap. split.
  - destruct (seq 0 n !! i) as [k|] eqn:Hk; simpl; [|done].
    apply lookup_seq in Hk as [-> ?]. intros [= <-]. done.
  - intros [Hi ->]. by rewrite lookup_seq_lt.
Qed.

Lemma bandas_take ary n i :
  i ≤ n → take i (banda ary n <$> seq 0 n) = banda ary n <$> seq 0 i.
Proof.
  intros Hi. rewrite <- fmap_take. f_equal.
  replace n with (i + (n - i)) by lia. by rewrite seq_app, take_app_length'
    by (by rewrite length_seq).
Qed.

(** The rows of the first [i] bands: a telescoping sum. *)
Lemma bandas_suma ary n i :
  sum_list_with vfilas (banda ary n <$> seq 0 i) = corte (vfilas ary) n i.
Proof.
  induction i as [|i IH]; [by rewrite corte_0|].
  rewrite seq_S, fmap_app, sum_list_with_app, IH. simpl.
  pose proof (corte_mono (vfilas ary) n i (S i) ltac:(lia)). lia.
Qed.

(** The rows the bands show, one after the other, are the rows of the
    array. *)
Lemma bandas_concat ary n i (buf : list (list Z)) :
  concat ((λ b, take (vfilas b) (drop (inicio b) buf)) <$> (banda ary n <$> seq 0 i))
  = take (corte (vfilas ary) n i) (drop (inicio ary) buf).
Proof.
  induction i as [|i IH]; [by rewrite corte_0|].
  rewrite seq_S, !fmap_app, concat_app, IH. simpl. rewrite app_nil_r.
  pose proof (corte_mono (vfilas ary) n i (S i) ltac:(lia)).
  rewrite <- drop_drop, take_take_drop. f_equal. lia.
Qed.

End ArraySplit.

(** ** The side of the grid *)

Lemma binary_round_aux_signo mx ex lx :
  match binary_round_aux valor.prec valor.emax false mx ex lx with
  | S754_finite true _ _ => False
  | _ => True
  end.
Proof.
  unfold binary_round_aux.
  destruct (shr_fexp _ _ mx ex lx) as [mrs' e'].
  destruct (shr_fexp _ _ _ e' loc_Exact) as [mrs'' e''].
  destruct (shr_m mrs''); [done| |done].
  by destruct (_ <=? _).
Qed.

Lemma SFsqrt_signo x :
  match SFsqrt valor.prec valor.emax x with
  | S754_finite true _ _ => False
  | _ => True
  end.
Proof.
  destruct x as [s|[]| |[] m e]; simpl; try done.
  destruct (SFsqrt_core_binary _ _ _ e) as [[mz ez] lz].
  apply binary_round_aux_signo.
Qed.

(** A side is never negative. *)
Lemma lado_de_no_negativo x lado : lado_de x = Ok lado → 0 <= lado.
Proof.
  unfold lado_de, valor.sqrt.
  destruct (_ || _); [done|].
  pose proof (SFsqrt_signo (valor.float64 x)) as Hs.
  destruct (SFsqrt _ _ _) as [s|s| |s m e]; simpl; try done.
  - intros [= <-]. lia.
  - destruct s; [done|]. intros [= <-].
    destruct (Z.leb_spec 0 e).
    + apply Z.mul_nonneg_nonneg; [lia|]. apply Z.pow_nonneg. lia.
    + apply Z.div_pos; [lia|]. apply Z.pow_pos_nonneg; lia.
Qed.

(** ** The clock and the output *)

Lemma duraciones_ext r r' n :
  (∀ k, r k = r' k) → duraciones r n = duraciones r' n.
Proof.
  revert r r'. induction n as [|n IH]; intros r r' Hr; simpl; [done|].
  rewrite !Hr. f_equal. apply IH. intros k. apply Hr.
Qed.

Lemma informes_ext r r' ps lados :
  (∀ k, r k = r' k) → informes r ps lados = informes r' ps lados.
Proof.
  revert r r' lados. induction ps as [|p ps IH]; intros r r' lados Hr; [done|].
  destruct lados as [|lado lados]; simpl; [done|].
  rewrite !Hr. do 2 f_equal. apply IH. intros k. apply Hr.
Qed.

Lemma length_duraciones r n : length (duraciones r n) = n.
Proof. revert r. induction n as [|n IH]; intros r; simpl; [done|]. by rewrite IH. Qed.

(** On a clock that never goes backwards no elapsed time is negative. *)
Lemma duraciones_no_negativas r n :
  (∀ k, (r k <= r (S k))%Q) → Forall (λ t, (0 <= t)%Q) (duraciones r n).
Proof.
  revert r. induction n as [|n IH]; intros r Hr; simpl; [done|].
  constructor.
  - rewrite <- (Qplus_opp_r (r 0%nat)). unfold Qminus.
    apply Qplus_le_compat; [apply Hr|apply Qle_refl].
  - apply IH. intros k. apply Hr.
Qed.

Lemma time_time_spec w :
  logra time_time w (λ t w',
    t = reloj w 0%nat ∧ memoria w' = memoria w ∧ azar w' = azar w ∧
    (∀ k, reloj w' k = reloj w (S k)) ∧ salida w' = salida w).
Proof. by unfold logra, time_time. Qed.

Lemma print_spec e w :
  logra (print e) w (λ _ w',
    memoria w' = memoria w ∧ azar w' = azar w ∧ reloj w' = reloj w ∧
    salida w' = salida w ++ [e]).
Proof. by unfold logra, print. Qed.

(** ** The pool *)

(** A view over the buffer of an array, of its columns and of no more rows,
    is an array too. *)
Lemma legible_base w v v' :
  legible w v → base v' = base v → (vfilas v' ≤ vfilas v)%nat →
  vcols v' = vcols v → legible w v'.
Proof.
  intros [a Ha] Hb Hf Hc. unfold legible, vale in *.
  apply leer_en_Some in Ha as (buf & Hbuf & Hforma & _).
  eexists. apply leer_en_Some. exists buf. rewrite Hb, Hc.
  split_and!; [done| |done].
  eapply forma_posible_menor; [|exact Hforma]. lia.
Qed.

Lemma legible_banda w ary n i : legible w ary → legible w (banda ary n i).
Proof.
  intros Hl. apply (legible_base _ ary); [done..| |done]. apply banda_menor.
Qed.

Lemma legible_conserva w w' v : conserva w w' → legible w v → legible w' v.
Proof. intros Hc [a Ha]. exists a. by eapply vale_conserva. Qed.

Lemma en_proceso_hijo_spec {A : Type} (c : M A) w (Φ : A → mundo → Prop) :
  logra c w Φ → logra (en_proceso_hijo c) w (λ a w', w' = w ∧ ∃ w'', Φ a w'').
Proof.
  unfold logra, en_proceso_hijo. destruct (c w) as [[a w'']|e]; [|done]. eauto.
Qed.

(** The pool reads the sub-grids and allocates the results; nothing else of
    the parent's world changes. *)
Lemma starmap_worker_spec w pasos subgrillas :
  Forall (legible w) subgrillas →
  logra (starmap_worker ((λ sg, (sg, pasos)) <$> subgrillas)) w (λ rs w',
    solo_aloja w w' ∧ length rs = length subgrillas).
Proof.
  revert w. induction subgrillas as [|sg sgs IH]; intros w Hleg; simpl.
  - apply logra_ret. split; [apply solo_aloja_refl|done].
  - apply Forall_cons in Hleg as [[a Ha] Hsgs].
    apply logra_bind. eapply logra_mono; [by apply leer_spec|].
    intros x w0 [-> ->]. apply logra_bind.
    eapply logra_mono.
    { apply (en_proceso_hijo_spec _ _
               (λ x _, x = Nat.iter (Z.to_nat pasos) generacion a ∧ cabe x)).
      apply logra_bind.
      eapply logra_mono; [by eapply nuevo_spec, vale_cabe|].
      intros sg' w1 [Hsg' Hw1]. apply logra_bind.
      eapply logra_mono; [by apply worker_spec|].
      intros r w2 [Hr Hw2]. eapply logra_mono; [by apply leer_spec|].
      intros x w3 [-> _]. split; [done|]. by eapply vale_cabe. }
    intros r w1 [-> [_ [_ Hr]]]. apply logra_bind.
    eapply logra_mono; [by apply nuevo_spec|].
    intros vr w2 [_ Hw2]. apply logra_bind.
    eapply logra_mono.
    { apply IH. eapply Forall_impl; [exact Hsgs|].
      intros v. apply legible_conserva, Hw2. }
    intros rs w3 [Hw3 Hlen]. apply logra_ret.
    split; [by eapply solo_aloja_trans|]. simpl. by rewrite Hlen.
Qed.

(** ** One iteration of the harness *)

Lemma primera_bandas ary n w :
  (0 < n)%nat →
  logra (primera (banda ary n <$> seq 0 n)) w (λ sg w', sg = banda ary n 0 ∧ w' = w).
Proof. intros Hn. destruct n as [|n]; [lia|]. by apply logra_ret. Qed.

Lemma Pool_spec p w : 1 <= p → logra (Pool p) w (λ _ w', w' = w).
Proof.
  intros Hp. unfold Pool. destruct (Z.ltb_spec p 1); [lia|]. by apply logra_ret.
Qed.

(** For a worker count of at least 1 whose side [int(np.sqrt(...))] is
    [lado], the side of an array, the iteration returns: it builds a grid of
    [lado] rows and [lado] columns in a new buffer, leaves the buffers that were there as they
    were, reads the clock twice, prints its two lines and appends the
    elapsed time. *)
Lemma iteracion_spec celdas_por_proceso pasos p tiempos lado w :
  1 <= p → lado_de (celdas_por_proceso * p) = Ok lado →
  valor.forma_posible lado lado = true →
  logra (iteracion celdas_por_proceso pasos p tiempos) w (λ ts w',
    let t := (reloj w 1%nat - reloj w 0%nat)%Q in
    ts = tiempos ++ [t] ∧
    salida w' = salida w ++ [Informe p lado; Tiempo t] ∧
    (∀ k, reloj w' k = reloj w (S (S k))) ∧
    memoria w ⊆ memoria w' ∧
    ∃ g, memoria w !! fresh (dom (memoria w)) = None ∧
         memoria w' !! fresh (dom (memoria w)) = Some (datos g) ∧
         de_forma (Z.to_nat lado) (Z.to_nat lado) g ∧ binaria g).
Proof.
  intros Hp Hlado Hcabe.
  unfold lado_de in Hlado.
  destruct (valor.sqrt (celdas_por_proceso * p)) as [raiz|e] eqn:Hraiz; [|done].
  unfold iteracion.
  apply logra_bind. unfold logra at 1, np.sqrt. rewrite Hraiz.
  apply logra_bind. unfold logra at 1, int_. rewrite Hlado.
  apply logra_bind. eapply logra_mono; [by apply init_spec|].
  intros juego w1 (g & Hg & Hw1 & _ & Hvista & Hbuf & Hforma & Hbin & _).
  apply logra_bind. unfold logra at 1. rewrite array_split_ok by done.
  apply logra_bind. eapply logra_mono; [apply primera_bandas; lia|].
  intros sg0 w1' [-> ->].
  assert (Hleg : ∀ i, legible w1 (banda (grilla juego) (Z.to_nat p) i)).
  { intros i. apply legible_banda. by exists g. }
  apply logra_bind. destruct (Hleg 0%nat) as [a0 Ha0].
  eapply logra_mono; [by apply worker_spec|].
  intros r0 w2 [_ Hw2].
  apply logra_bind. eapply logra_mono; [apply time_time_spec|].
  intros inicio w3 (-> & Hm3 & Ha3 & Hr3 & Hs3).
  apply logra_bind. eapply logra_mono; [by apply Pool_spec|].
  intros _ w3' ->.
  apply logra_bind. eapply logra_mono.
  { apply starmap_worker_spec. apply Forall_fmap, Forall_forall.
    intros i _. simpl. destruct (Hleg i) as [a Ha]. exists a.
    unfold vale. rewrite Hm3. by eapply vale_conserva. }
  intros rs w4 [[Hw4 _] _].
  apply logra_bind. eapply logra_mono; [apply time_time_spec|].
  intros fin w5 (-> & Hm5 & Ha5 & Hr5 & Hs5).
  apply logra_bind. eapply logra_mono; [apply print_spec|].
  intros _ w6 (Hm6 & Ha6 & Hr6 & Hs6).
  apply logra_bind. eapply logra_mono; [apply print_spec|].
  intros _ w7 (Hm7 & Ha7 & Hr7 & Hs7).
  apply logra_ret.
  destruct Hw1 as (Hm1 & Hr1 & Hs1). destruct Hw2 as (Hm2 & Hr2 & Hs2).
  destruct Hw4 as (Hm4 & Hr4 & Hs4).
  assert (Hmem : memoria w ⊆ memoria w7).
  { rewrite Hm7, Hm6, Hm5. rewrite Hm3 in Hm4.
    transitivity (memoria w1); [exact Hm1|].
    transitivity (memoria w2); [exact Hm2|exact Hm4]. }
  assert (Hmem1 : memoria w1 ⊆ memoria w7).
  { rewrite Hm7, Hm6, Hm5. rewrite Hm3 in Hm4.
    transitivity (memoria w2); [exact Hm2|exact Hm4]. }
  assert (Hini : reloj w3 0%nat = reloj w 1%nat ∧ reloj w2 0%nat = reloj w 0%nat).
  { by rewrite Hr3, Hr2, Hr1. }
  destruct Hini as [Hfin Hini].
  cbv zeta. rewrite Hr4, Hfin, Hini. rewrite Hr4, Hfin, Hini in Hs7.
  split_and!.
  - done.
  - rewrite Hs7, Hs6, Hs5, Hs4, Hs3, Hs2, Hs1. by rewrite <- app_assoc.
  - intros k. by rewrite Hr7, Hr6, Hr5, Hr4, Hr3, Hr2, Hr1.
  - done.
  - exists g. split_and!; [|by eapply lookup_weaken|done..].
    apply not_elem_of_dom, is_fresh.
Qed.

(** ** The whole run *)

Lemma grilla_construida_mono w0 w w' lado :
  memoria w0 ⊆ memoria w →
  grilla_construida w w' lado → grilla_construida w0 w' lado.
Proof.
  intros H0 (l & g & Hl & Hg & Hf & Hbin). exists l, g. split_and!; try done.
  destruct (memoria w0 !! l) as [buf|] eqn:Hb; [|done].
  rewrite (lookup_weaken _ _ _ _ Hb H0) in Hl. discriminate.
Qed.

Lemma para_cada_spec celdas_por_proceso pasos ps lados tiempos w :
  Forall2 (λ p lado, 1 <= p ∧ lado_de (celdas_por_proceso * p) = Ok lado ∧
                     valor.forma_posible lado lado = true)
    ps lados →
  logra (para_cada celdas_por_proceso pasos ps tiempos) w (λ ts w',
    ts = tiempos ++ duraciones (reloj w) (length ps) ∧
    salida w' = salida w ++ informes (reloj w) ps lados ∧
    (∀ k, reloj w' k = reloj w (2 * length ps + k)%nat) ∧
    memoria w ⊆ memoria w' ∧
    Forall (grilla_construida w w') lados).
Proof.
  intros H. revert tiempos w.
  induction H as [|p lado ps lados (Hp & Hlado & Hcabe) _ IH];
    intros tiempos w; simpl.
  - apply logra_ret. rewrite !app_nil_r. split_and!; try done.
  - apply logra_bind. eapply logra_mono; [by apply iteracion_spec|].
    intros ts w1 (-> & Hs1 & Hr1 & Hm1 & (g & Hnone & Hg & Hforma & Hbin)).
    eapply logra_mono; [apply IH|].
    intros ts w2 (-> & Hs2 & Hr2 & Hm2 & Hgs).
    assert (Hr : ∀ k, reloj w1 k = reloj w (S (S k))) by done.
    split_and!.
    + rewrite <- app_assoc. simpl. do 2 f_equal. by apply duraciones_ext.
    + rewrite Hs2, Hs1, <- app_assoc. simpl. do 3 f_equal.
      by apply informes_ext.
    + intros k. rewrite Hr2, Hr1. f_equal. lia.
    + by etrans.
    + constructor.
      * exists (fresh (dom (memoria w))), g.
        split_and!; [done|by eapply lookup_weaken|done..].
      * eapply Forall_impl; [exact Hgs|]. intros l.
        by apply grilla_construida_mono.
Qed.

(** ** Runs that raise *)

Lemma falla_bind_l {A B : Type} (c : M A) (k : A → M B) w :
  falla c w → falla (c ≫= k) w.
Proof. intros [e He]. exists e. unfold mbind, M_bind. by rewrite He. Qed.

Lemma falla_bind {A B : Type} (c : M A) (k : A → M B) w :
  (∀ a w', c w = Ok (a, w') → falla (k a) w') → falla (c ≫= k) w.
Proof.
  intros Hk. unfold falla, mbind, M_bind in *.
  destruct (c w) as [[a w']|e]; [by apply Hk|by exists e].
Qed.

(** A worker count below 1 makes the iteration raise: at the latest in
    [np.array_split]. *)
Lemma iteracion_falla_p celdas_por_proceso pasos p tiempos w :
  p <= 0 → falla (iteracion celdas_por_proceso pasos p tiempos) w.
Proof.
  intros Hp. unfold iteracion.
  apply falla_bind. intros raiz w1 _.
  apply falla_bind. intros lado w2 _.
  apply falla_bind. intros juego w3 _.
  apply falla_bind_l. exists ValueError. by apply array_split_error.
Qed.

(** ** The float64 of a negative int *)

Lemma digits2_pos_bound m : 2 ^ (Z.pos (digits2_pos m) - 1) <= Z.pos m.
Proof.
  induction m as [m IH|m IH|]; simpl digits2_pos; [| |done].
  - rewrite Pos2Z.inj_succ. replace (Z.succ (Z.pos (digits2_pos m)) - 1)
      with (Z.succ (Z.pos (digits2_pos m) - 1)) by lia.
    rewrite Z.pow_succ_r by lia. lia.
  - rewrite Pos2Z.inj_succ. replace (Z.succ (Z.pos (digits2_pos m)) - 1)
      with (Z.succ (Z.pos (digits2_pos m) - 1)) by lia.
    rewrite Z.pow_succ_r by lia. lia.
Qed.

Lemma shr_1_m mrs : 0 <= shr_m mrs → shr_m (shr_1 mrs) = shr_m mrs / 2.
Proof.
  destruct mrs as [m r s]. simpl. intros Hm.
  rewrite <- Z.div2_div. by destruct m as [|[p|p|]|p]; [..|lia].
Qed.

Lemma pow2_xO p : 2 ^ Z.pos p~0 = 2 ^ Z.pos p * 2 ^ Z.pos p.
Proof. rewrite Pos2Z.inj_xO, <- Z.pow_add_r by lia. f_equal. lia. Qed.

Lemma pow2_xI p : 2 ^ Z.pos p~1 = 2 * (2 ^ Z.pos p * 2 ^ Z.pos p).
Proof.
  rewrite Pos2Z.inj_xI, <- Z.pow_add_r by lia.
  replace (2 * Z.pos p + 1) with (Z.succ (Z.pos p + Z.pos p)) by lia.
  by rewrite Z.pow_succ_r by lia.
Qed.

Lemma iter_pos_shr_1_m p mrs :
  0 <= shr_m mrs →
  shr_m (SpecFloat.iter_pos shr_1 p mrs) = shr_m mrs / 2 ^ Z.pos p.
Proof.
  revert mrs. induction p as [p IH|p IH|]; intros mrs Hm; simpl.
  - assert (Hq : 0 < 2 ^ Z.pos p) by (by apply Z.pow_pos_nonneg).
    assert (H1 : 0 <= shr_m (shr_1 mrs)).
    { rewrite shr_1_m by done. by apply Z.div_pos. }
    assert (H2 : 0 <= shr_m (SpecFloat.iter_pos shr_1 p (shr_1 mrs))).
    { rewrite IH by done. by apply Z.div_pos. }
    rewrite IH, IH, shr_1_m, pow2_xI by done.
    by rewrite !Z.div_div by lia.
  - assert (Hq : 0 < 2 ^ Z.pos p) by (by apply Z.pow_pos_nonneg).
    assert (H2 : 0 <= shr_m (SpecFloat.iter_pos shr_1 p mrs)).
    { rewrite IH by done. by apply Z.div_pos. }
    rewrite IH, IH, pow2_xO by done.
    by rewrite !Z.div_div by lia.
  - by apply shr_1_m.
Qed.

Lemma shr_record_of_loc_m m l : shr_m (shr_record_of_loc m l) = m.
Proof. by destruct l as [|[]]. Qed.

(** Rounding a positive mantissa to 53 bits leaves a positive mantissa, as
    long as the exponent is far from the subnormal range. *)
Lemma shr_fexp_positivo m e l :
  0 < m → -1000 <= e →
  0 < shr_m (shr_fexp valor.prec valor.emax m e l).1 ∧
  e <= (shr_fexp valor.prec valor.emax m e l).2.
Proof.
  intros Hm He. unfold shr_fexp, shr, fexp, emin, valor.prec, valor.emax.
  destruct m as [|m|m]; [lia| |lia]. simpl Zdigits2.
  pose proof (digits2_pos_bound m) as Hd.
  set (D := Z.pos (digits2_pos m)) in *.
  assert (HD : 0 < D) by (unfold D; lia).
  destruct (Z.max (D + e - 53) (3 - 1024 - 53) - e) as [|p|p] eqn:Hn; simpl;
    rewrite ?shr_record_of_loc_m; try lia.
  rewrite iter_pos_shr_1_m by (rewrite shr_record_of_loc_m; lia).
  rewrite shr_record_of_loc_m. split; [|lia].
  apply Z.lt_le_trans with 1; [lia|].
  apply Z.div_le_lower_bound; [by apply Z.pow_pos_nonneg|].
  rewrite Z.mul_1_r. etrans; [|exact Hd].
  apply Z.pow_le_mono_r; lia.
Qed.

Lemma round_nearest_even_ge m l : m <= round_nearest_even m l.
Proof. destruct l as [|[]]; simpl; try destruct (Z.even m); lia. Qed.

(** So the result keeps its sign: it is no zero and no float of the other
    sign. *)
Lemma binary_round_aux_signo_de s m e l :
  0 < m → -1000 <= e →
  match binary_round_aux valor.prec valor.emax s m e l with
  | S754_zero _ => False
  | S754_infinity s' | S754_finite s' _ _ => s' = s
  | S754_nan => True
  end.
Proof.
  intros Hm He. unfold binary_round_aux.
  destruct (shr_fexp_positivo m e l Hm He) as [H1 H1e].
  destruct (shr_fexp _ _ m e l) as [mrs' e']. simpl in H1, H1e.
  pose proof (round_nearest_even_ge (shr_m mrs') (loc_of_shr_record mrs')) as Hr.
  destruct (shr_fexp_positivo
              (round_nearest_even (shr_m mrs') (loc_of_shr_record mrs'))
              e' loc_Exact ltac:(lia) ltac:(lia)) as [H2 _].
  destruct (shr_fexp _ _ _ e' loc_Exact) as [mrs'' e'']. simpl in H2.
  destruct (shr_m mrs''); [lia| |done].
  by destruct (_ <=? _).
Qed.

Lemma float64_negativo x :
  x < 0 →
  match valor.float64 x with
  | S754_infinity true | S754_finite true _ _ | S754_nan => True
  | _ => False
  end.
Proof.
  intros Hx. unfold valor.float64, binary_normalize.
  destruct x as [|m|m]; [lia..|].
  unfold binary_round.
  destruct (shl_align m 0 _) as [mz ez] eqn:Hsh.
  assert (Hez : -1000 <= ez).
  { unfold shl_align, fexp, emin, valor.prec, valor.emax in Hsh.
    destruct (_ - 0) in Hsh; injection Hsh as <- <-; lia. }
  pose proof (binary_round_aux_signo_de true (Z.pos mz) ez loc_Exact
                ltac:(lia) Hez) as H.
  destruct (binary_round_aux _ _ _ _ _ _) as [s|s| |s m' e']; try done;
    by subst s.
Qed.

(** The square root of a negative int is NaN, or no float at all:
    [int(np.sqrt(x))] raises. *)
Lemma lado_de_negativo x : x < 0 → ∃ e, lado_de x = Error e.
Proof.
  intros Hx. unfold lado_de, valor.sqrt.
  destruct (_ || _); [by exists TypeError|].
  pose proof (float64_negativo x Hx) as H.
  destruct (valor.float64 x) as [s|[]| |[] m e]; try done;
    by exists ValueError.
Qed.

(** ** Runs that raise, continued *)

Lemma iteracion_falla_negativo celdas_por_proceso pasos p tiempos w :
  celdas_por_proceso * p < 0 →
  falla (iteracion celdas_por_proceso pasos p tiempos) w.
Proof.
  intros Hx. destruct (lado_de_negativo _ Hx) as [e He].
  unfold lado_de in He. unfold iteracion.
  apply falla_bind. intros raiz w1 Hraiz. apply falla_bind_l.
  unfold np.sqrt in Hraiz.
  destruct (valor.sqrt _) as [raiz'|e']; [|done].
  injection Hraiz as -> ->. exists e. unfold int_. by rewrite He.
Qed.

Lemma para_cada_falla celdas_por_proceso pasos ps tiempos w :
  (∃ p, p ∈ ps ∧ p <= 0) ∨ (celdas_por_proceso < 0 ∧ ps ≠ []) →
  falla (para_cada celdas_por_proceso pasos ps tiempos) w.
Proof.
  intros [(p & Hin & Hp) | [Hc Hps]].
  - revert tiempos w. induction ps as [|q ps IH]; intros tiempos w.
    { by apply elem_of_nil in Hin. }
    simpl. apply elem_of_cons in Hin as [<- | Hin].
    + by apply falla_bind_l, iteracion_falla_p.
    + apply falla_bind. intros ts w' _. by apply IH.
  - destruct ps as [|p ps]; [done|]. simpl. apply falla_bind_l.
    destruct (decide (p <= 0)).
    + by apply iteracion_falla_p.
    + apply iteracion_falla_negativo. nia.
Qed.

(** ** Generations below zero *)

Lemma bind_ext {A B : Type} (c c' : M A) (k k' : A → M B) w :
  c w = c' w → (∀ a w', k a w' = k' a w') → (c ≫= k) w = (c' ≫= k') w.
Proof.
  intros Hc Hk. unfold mbind, M_bind. rewrite Hc.
  by destruct (c' w) as [[a w']|e].
Qed.

Lemma en_proceso_hijo_ext {A : Type} (c c' : M A) w :
  c w = c' w → en_proceso_hijo c w = en_proceso_hijo c' w.
Proof. unfold en_proceso_hijo. by intros ->. Qed.

(** [range(pasos)] is empty for every [pasos <= 0]: the worker then does
    what it does for 0 generations. *)
Lemma worker_pasos_negativos subgrilla pasos w :
  pasos <= 0 → worker subgrilla pasos w = worker subgrilla 0 w.
Proof.
  intros Hp. unfold worker, __init__.
  replace (Z.to_nat pasos) with 0%nat by lia.
  unfold mbind, M_bind.
  by destruct (np.random_randint2 _ _ w) as [[g w']|e].
Qed.

Lemma starmap_worker_pasos_negativos subgrillas pasos w :
  pasos <= 0 →
  starmap_worker ((λ sg, (sg, pasos)) <$> subgrillas) w
  = starmap_worker ((λ sg, (sg, 0)) <$> subgrillas) w.
Proof.
  intros Hp. revert w. induction subgrillas as [|sg sgs IH]; intros w; [done|].
  simpl. apply bind_ext; [done|]. intros a w1. apply bind_ext.
  - apply en_proceso_hijo_ext, bind_ext; [done|].
    intros sg' w2. apply bind_ext; [|done]. by apply worker_pasos_negativos.
  - intros r w2. apply bind_ext; [done|].
    intros vr w3. apply bind_ext; [|done]. apply IH.
Qed.

Lemma init_bind {B : Type} filas columnas pasos procesos
    (k : JuegoDeLaVida → M B) w :
  (__init__ filas columnas pasos procesos ≫= k) w
  = (np.random_randint2 filas columnas
       ≫= λ g, k (Juego filas columnas pasos procesos g)) w.
Proof.
  unfold __init__, mbind, M_bind.
  by destruct (np.random_randint2 filas columnas w) as [[g w']|e].
Qed.

Lemma iteracion_pasos_negativos celdas_por_proceso pasos p tiempos w :
  pasos <= 0 →
  iteracion celdas_por_proceso pasos p tiempos w
  = iteracion celdas_por_proceso 0 p tiempos w.
Proof.
  intros Hp. unfold iteracion.
  apply bind_ext; [done|]. intros raiz w1.
  apply bind_ext; [done|]. intros lado w2.
  rewrite !init_bind. apply bind_ext; [done|]. intros g w3. simpl.
  apply bind_ext; [done|]. intros subgrillas w4.
  apply bind_ext; [done|]. intros sg0 w5.
  apply bind_ext; [done|]. intros r w6.
  apply bind_ext; [done|]. intros inicio w7.
  apply bind_ext; [done|]. intros [] w8.
  apply bind_ext; [|done]. by apply starmap_worker_pasos_negativos.
Qed.

Lemma para_cada_pasos_negativos celdas_por_proceso pasos ps tiempos w :
  pasos <= 0 →
  para_cada celdas_por_proceso pasos ps tiempos w
  = para_cada celdas_por_proceso 0 ps tiempos w.
Proof.
  intros Hp. revert tiempos w. induction ps as [|p ps IH]; intros tiempos w; [done|].
  simpl. apply bind_ext; [|done]. by apply iteracion_pasos_negativos.
Qed.

(** ** The float64 square root of an int below 2^52 *)

Lemma digits2_pos_cota m : Z.pos m < 2 ^ Z.pos (digits2_pos m).
Proof.
  induction m as [m IH|m IH|]; simpl digits2_pos; [| |done].
  - rewrite Pos2Z.inj_succ, Z.pow_succ_r by lia. lia.
  - rewrite Pos2Z.inj_succ, Z.pow_succ_r by lia. lia.
Qed.

(** The number of binary digits is the [d] with [2^(d-1) <= m < 2^d]. *)
Lemma digits2_pos_unico m d :
  2 ^ (d - 1) <= Z.pos m < 2 ^ d → Z.pos (digits2_pos m) = d.
Proof.
  intros [Hlo Hhi].
  pose proof (digits2_pos_bound m) as Hlo'.
  pose proof (digits2_pos_cota m) as Hhi'.
  set (D := Z.pos (digits2_pos m)) in *.
  destruct (Z.lt_trichotomy D d) as [Hlt | [Heq | Hgt]]; [|done|].
  - pose proof (Z.pow_le_mono_r 2 D (d - 1) ltac:(lia) ltac:(lia)). lia.
  - pose proof (Z.pow_le_mono_r 2 d (D - 1) ltac:(lia) ltac:(lia)). lia.
Qed.

Lemma Zdigits2_53 M : 2 ^ 52 <= M < 2 ^ 53 → Zdigits2 M = 53.
Proof.
  intros HM. destruct M as [|m|m]; [lia| |lia].
  simpl. by apply digits2_pos_unico.
Qed.

Lemma loc_of_shr_record_of_loc M l :
  loc_of_shr_record (shr_record_of_loc M l) = l.
Proof. by destruct l as [|[]]. Qed.

(** A mantissa of 53 digits is not shifted. *)
Lemma shr_fexp_53 M e l :
  2 ^ 52 <= M < 2 ^ 53 → -1074 <= e →
  shr_fexp valor.prec valor.emax M e l = (shr_record_of_loc M l, e).
Proof.
  intros HM He. unfold shr_fexp. rewrite Zdigits2_53 by done.
  unfold fexp, emin, valor.prec, valor.emax.
  by replace (Z.max (53 + e - 53) (3 - 1024 - 53) - e) with 0 by lia.
Qed.

(** Rounding a mantissa of 53 digits, when the rounded mantissa still has
    53 digits. *)
Lemma binary_round_aux_53 s M e l :
  2 ^ 52 <= M → round_nearest_even M l < 2 ^ 53 → -1074 <= e <= 971 →
  binary_round_aux valor.prec valor.emax s M e l
  = S754_finite s (Z.to_pos (round_nearest_even M l)) e.
Proof.
  intros HM Hr He. pose proof (round_nearest_even_ge M l) as Hge.
  unfold binary_round_aux.
  rewrite shr_fexp_53 by lia.
  rewrite loc_of_shr_record_of_loc, shr_record_of_loc_m.
  rewrite shr_fexp_53 by lia. simpl shr_m.
  destruct (round_nearest_even M l) as [|p|p] eqn:Hp; [lia| |lia].
  unfold valor.prec, valor.emax.
  by destruct (Z.leb_spec e (1024 - 53)); [|lia].
Qed.

Lemma iter_xO m d : Z.pos (Pos.iter xO m d) = Z.pos m * 2 ^ Z.pos d.
Proof.
  rewrite (Pos.iter_swap_gen _ _ Z.pos xO (Z.mul 2)) by done.
  by rewrite <- Z.shiftl_mul_pow2.
Qed.

(** An int below [2^53] is a float64: its [D] digits, shifted to 53. *)
Lemma float64_exacto m :
  Z.pos m < 2 ^ 53 →
  valor.float64 (Z.pos m)
  = S754_finite false
      (Z.to_pos (Z.pos m * 2 ^ (53 - Z.pos (digits2_pos m))))
      (Z.pos (digits2_pos m) - 53).
Proof.
  intros Hm.
  pose proof (digits2_pos_bound m) as Hlo.
  pose proof (digits2_pos_cota m) as Hhi.
  set (D := Z.pos (digits2_pos m)) in *.
  assert (HD : 1 <= D <= 53).
  { split; [unfold D; lia|].
    destruct (Z_le_gt_dec D 53) as [|Hgt]; [done|].
    pose proof (Z.pow_le_mono_r 2 53 (D - 1) ltac:(lia) ltac:(lia)). lia. }
  assert (Hpow : 2 ^ 53 = 2 ^ D * 2 ^ (53 - D)).
  { rewrite <- Z.pow_add_r by lia. f_equal. lia. }
  assert (Hpow' : 2 ^ D = 2 * 2 ^ (D - 1)).
  { rewrite <- Z.pow_succ_r by lia. f_equal. lia. }
  assert (Hpos : 0 < 2 ^ (53 - D)) by (apply Z.pow_pos_nonneg; lia).
  assert (HM : 2 ^ 52 <= Z.pos m * 2 ^ (53 - D) < 2 ^ 53).
  { change (2 ^ 53) with (2 * 2 ^ 52) in *. nia. }
  unfold valor.float64, binary_normalize, binary_round.
  fold D. unfold fexp, emin, valor.prec, valor.emax.
  replace (Z.max (D + 0 - 53) (3 - 1024 - 53)) with (D - 53) by lia.
  assert (Hsh : shl_align m 0 (D - 53)
                = (Z.to_pos (Z.pos m * 2 ^ (53 - D)), D - 53)).
  { unfold shl_align. destruct (D - 53 - 0) as [|d|d] eqn:Hd; [|lia|].
    - replace (53 - D) with 0 by lia. replace (D - 53) with 0 by lia.
      by rewrite Z.mul_1_r.
    - replace (53 - D) with (Z.pos d) by lia.
      by rewrite <- iter_xO, Pos2Z.id. }
  rewrite Hsh.
  rewrite Z2Pos.id by lia.
  change (binary_round_aux 53 1024) with (binary_round_aux valor.prec valor.emax).
  by rewrite binary_round_aux_53 by (simpl; lia).
Qed.

Lemma sqrtrem_eq n : 0 <= n → Z.sqrtrem n = (Z.sqrt n, n - Z.sqrt n * Z.sqrt n).
Proof.
  intros Hn. pose proof (Z.sqrtrem_spec n Hn) as Hs.
  pose proof (Z.sqrtrem_sqrt n) as Hq.
  destruct (Z.sqrtrem n) as [s r]. simpl in Hq. subst s.
  destruct Hs as [Hs _]. f_equal. lia.
Qed.

(** The square root of a float of 53 digits with exponent [D - 53]: the
    integer square root of the mantissa shifted to 106 or 105 digits. *)
Lemma SFsqrt_core_53 M D :
  2 ^ 52 <= M < 2 ^ 53 → 1 <= D <= 52 →
  SFsqrt_core_binary valor.prec valor.emax M (D - 53)
  = (Z.sqrt (M * 2 ^ (D + 53 - 2 * ((D + 1) / 2))),
     (D + 1) / 2 - 53,
     loc_raiz (M * 2 ^ (D + 53 - 2 * ((D + 1) / 2)))).
Proof.
  intros HM HD. unfold SFsqrt_core_binary.
  rewrite Zdigits2_53 by done. rewrite !Z.div2_div.
  unfold fexp, emin, valor.prec, valor.emax.
  assert (He' : Z.min (Z.max ((53 + (D - 53) + 1) / 2 - 53) (3 - 1024 - 53))
                  ((D - 53) / 2) = (D + 1) / 2 - 53).
  { replace (53 + (D - 53) + 1) with (D + 1) by lia.
    Z.to_euclidean_division_equations. lia. }
  cbv zeta. rewrite He'.
  assert (Hs : D - 53 - 2 * ((D + 1) / 2 - 53) = D + 53 - 2 * ((D + 1) / 2))
    by lia.
  rewrite Hs.
  assert (Hpos : 0 < D + 53 - 2 * ((D + 1) / 2))
    by (Z.to_euclidean_division_equations; lia).
  destruct (D + 53 - 2 * ((D + 1) / 2)) as [|p|p] eqn:Hp; [lia| |lia].
  rewrite Z.shiftl_mul_pow2 by lia.
  rewrite sqrtrem_eq by (apply Z.mul_nonneg_nonneg; [lia|apply Z.pow_nonneg; lia]).
  done.
Qed.

(** Squares against squares, scaled by [T * T]: the integer square root [q]
    of [m * T^2] lies in the band of [k = sqrt m], and rounding it up stays
    in the band when [k + 1 <= T]. *)
Lemma raiz_escalada m k T q r :
  0 <= k → 0 < T → k + 1 <= T → k * k <= m < (k + 1) * (k + 1) →
  0 <= q → q * q <= m * (T * T) < (q + 1) * (q + 1) →
  r = m * (T * T) - q * q →
  (k * T <= q < (k + 1) * T) ∧ (q < r → q + 1 < (k + 1) * T).
Proof.
  intros Hk HT HkT [Hm1 Hm2] Hq [Hq1 Hq2] Hr.
  assert (H1 : k * T <= q).
  { destruct (Z_le_gt_dec (k * T) q); [done|]. exfalso.
    assert (q + 1 <= k * T) by lia.
    assert ((q + 1) * (q + 1) <= (k * T) * (k * T)) by nia.
    assert ((k * T) * (k * T) = (k * k) * (T * T)) by ring.
    assert ((k * k) * (T * T) <= m * (T * T)) by nia. lia. }
  assert (H2 : q < (k + 1) * T).
  { destruct (Z_lt_ge_dec q ((k + 1) * T)); [done|]. exfalso.
    assert (((k + 1) * T) * ((k + 1) * T) <= q * q) by nia.
    assert (((k + 1) * T) * ((k + 1) * T) = ((k + 1) * (k + 1)) * (T * T))
      by ring.
    assert (m + 1 <= (k + 1) * (k + 1)) by lia.
    assert ((m + 1) * (T * T) <= ((k + 1) * (k + 1)) * (T * T)) by nia.
    nia. }
  split; [done|]. intros Hrq.
  destruct (Z_lt_ge_dec (q + 1) ((k + 1) * T)); [done|]. exfalso.
  assert (Hqe : q = (k + 1) * T - 1) by lia.
  assert (m + 1 <= (k + 1) * (k + 1)) by lia.
  assert (Hmt : (m + 1) * (T * T) <= ((k + 1) * (k + 1)) * (T * T)) by nia.
  assert (Hqq : q * q + q = ((k + 1) * (k + 1)) * (T * T) - (k + 1) * T).
  { rewrite Hqe. ring. }
  assert (T * T < (k + 1) * T) by lia.
  nia.
Qed.

(** Below [2^52] the side is the integer square root. *)
Lemma lado_de_exacto x : 0 <= x < 2 ^ 52 → lado_de x = Ok (Z.sqrt x).
Proof.
  intros [Hx0 Hx]. destruct x as [|m|m]; [done| |lia].
  unfold lado_de, valor.sqrt.
  destruct (Z.ltb_spec (Z.pos m) (- 2 ^ 63)); [lia|].
  destruct (Z.leb_spec (2 ^ 64) (Z.pos m)); [lia|]. simpl orb. cbv iota.
  rewrite float64_exacto by lia.
  pose proof (digits2_pos_bound m) as Hlo.
  pose proof (digits2_pos_cota m) as Hhi.
  set (D := Z.pos (digits2_pos m)) in *.
  assert (HD : 1 <= D <= 52).
  { split; [unfold D; lia|].
    destruct (Z_le_gt_dec D 52) as [|Hgt]; [done|].
    pose proof (Z.pow_le_mono_r 2 52 (D - 1) ltac:(lia) ltac:(lia)). lia. }
  set (h := (D + 1) / 2). set (t := 53 - h).
  assert (Hh : 1 <= h <= 26 ∧ D <= 2 * h <= D + 1)
    by (unfold h; Z.to_euclidean_division_equations; lia).
  set (T := 2 ^ t).
  assert (HT : 0 < T) by (apply Z.pow_pos_nonneg; unfold t; lia).
  assert (H2D : 2 ^ D = 2 * 2 ^ (D - 1)).
  { rewrite <- Z.pow_succ_r by lia. f_equal. lia. }
  assert (Hp53 : 2 ^ 53 = 2 ^ D * 2 ^ (53 - D)).
  { rewrite <- Z.pow_add_r by lia. f_equal. lia. }
  assert (Hpos : 0 < 2 ^ (53 - D)) by (apply Z.pow_pos_nonneg; lia).
  set (M := Z.pos m * 2 ^ (53 - D)).
  assert (HM : 2 ^ 52 <= M < 2 ^ 53).
  { unfold M. change (2 ^ 53) with (2 * 2 ^ 52) in *. nia. }
  assert (Hm' : M * 2 ^ (D + 53 - 2 * h) = Z.pos m * (T * T)).
  { unfold M, T. rewrite <- Z.mul_assoc, <- !Z.pow_add_r by (unfold t; lia).
    do 2 f_equal. unfold t. lia. }
  unfold SFsqrt. rewrite Z2Pos.id by (fold M; lia). fold M.
  rewrite SFsqrt_core_53 by done. fold h. rewrite Hm'.
  set (n := Z.pos m * (T * T)).
  set (k := Z.sqrt (Z.pos m)). set (q := Z.sqrt n).
  assert (Hn : 0 <= n) by (unfold n; nia).
  pose proof (Z.sqrt_spec (Z.pos m) ltac:(lia)) as Hk. fold k in Hk.
  pose proof (Z.sqrt_spec n Hn) as Hq. fold q in Hq. cbv zeta in Hk, Hq.
  unfold Z.succ in Hk, Hq.
  pose proof (Z.sqrt_nonneg (Z.pos m)) as Hk0. fold k in Hk0.
  pose proof (Z.sqrt_nonneg n) as Hq0. fold q in Hq0.
  assert (H2h : 2 ^ h * 2 ^ t = 2 ^ 53).
  { rewrite <- Z.pow_add_r by (unfold t; lia). f_equal. unfold t. lia. }
  assert (Hkh : k + 1 <= 2 ^ h).
  { assert (k < 2 ^ h); [|lia].
    apply Z.sqrt_lt_square; [lia|apply Z.pow_nonneg; lia|].
    rewrite <- Z.pow_add_r by lia.
    pose proof (Z.pow_le_mono_r 2 D (h + h) ltac:(lia) ltac:(lia)). lia. }
  assert (HhT : 2 ^ h <= T).
  { apply Z.pow_le_mono_r; unfold t; lia. }
  destruct (raiz_escalada (Z.pos m) k T q (n - q * q))
    as [[Hq1 Hq2] Hup]; [lia..|done|].
  assert (Hq52 : 2 ^ 52 <= q).
  { apply Z.sqrt_le_square; [done|lia|].
    change (2 ^ 52 * 2 ^ 52) with (2 ^ 104).
    assert (Hpw : 2 ^ 104 <= 2 ^ (D - 1) * (T * T)).
    { unfold T. rewrite <- !Z.pow_add_r by (unfold t; lia).
      apply Z.pow_le_mono_r; unfold t; lia. }
    unfold n. nia. }
  assert (HkT53 : (k + 1) * T <= 2 ^ 53) by nia.
  assert (Hround : q <= round_nearest_even q (loc_raiz n) < (k + 1) * T).
  { unfold loc_raiz. fold q.
    destruct (Z.eqb_spec (n - q * q) 0); simpl; [lia|].
    destruct (Z.leb_spec (n - q * q) q); simpl; lia. }
  rewrite binary_round_aux_53 by lia.
  unfold int. destruct (Z.leb_spec 0 (h - 53)); [lia|].
  rewrite Z2Pos.id by lia.
  replace (- (h - 53)) with t by (unfold t; lia). fold T.
  f_equal. symmetry. apply Z.le_antisymm.
  - apply Z.div_le_lower_bound; [done|]. lia.
  - apply Z.lt_succ_r. apply Z.div_lt_upper_bound; [done|]. lia.
Qed.

(** The square root of an int below [2^52] is the side of an array. *)
Lemma forma_posible_raiz x :
  0 <= x < 2 ^ 52 → valor.forma_posible (Z.sqrt x) (Z.sqrt x) = true.
Proof.
  intros Hx. apply forma_posible_spec.
  pose proof (Z.sqrt_spec x ltac:(lia)) as [Hs _].
  pose proof (Z.sqrt_nonneg x).
  assert (Z.sqrt x < 2 ^ 63) by nia.
  split_and!; lia.
Qed.

(** ** Arrays by their cells *)

(** Two arrays of one shape with the same cells are the same array. *)
Lemma ndarray_ext R C a b :
  de_forma R C a → de_forma R C b →
  (∀ i j, (i < R)%nat → (j < C)%nat → celda a i j = celda b i j) → a = b.
Proof.
  intros (HRa & HCa & Hwa) (HRb & HCb & Hwb) Hcel.
  destruct a as [ca da], b as [cb db].
  unfold nfilas, bien_formada, celda in *. simpl in *.
  rewrite HCa, HCb. f_equal. apply list_eq. intros i.
  destruct (decide (i < R)%nat) as [Hi|Hi].
  - destruct (lookup_lt_is_Some_2 da i ltac:(lia)) as [fa Hfa].
    destruct (lookup_lt_is_Some_2 db i ltac:(lia)) as [fb Hfb].
    rewrite Hfa, Hfb. f_equal.
    pose proof (Forall_lookup_1 _ _ _ _ Hwa Hfa) as Hla.
    pose proof (Forall_lookup_1 _ _ _ _ Hwb Hfb) as Hlb. simpl in *.
    apply list_eq. intros j.
    destruct (decide (j < C)%nat) as [Hj|Hj].
    + specialize (Hcel i j Hi Hj). rewrite Hfa, Hfb in Hcel. simpl in Hcel.
      destruct (lookup_lt_is_Some_2 fa j ltac:(lia)) as [x Hx].
      destruct (lookup_lt_is_Some_2 fb j ltac:(lia)) as [y Hy].
      rewrite Hx, Hy in *. simpl in Hcel. by rewrite Hcel.
    + by rewrite !lookup_ge_None_2 by lia.
  - by rewrite !lookup_ge_None_2 by lia.
Qed.

Lemma de_forma_constante R C x : de_forma R C (constante R C x).
Proof.
  unfold de_forma, nfilas, bien_formada, constante. simpl.
  rewrite length_replicate. split_and!; [done..|].
  apply Forall_replicate. by rewrite length_replicate.
Qed.

Lemma celda_constante R C x i j :
  (i < R)%nat → (j < C)%nat → celda (constante R C x) i j = x.
Proof.
  intros Hi Hj. unfold celda, constante. simpl.
  rewrite lookup_replicate_2 by done. simpl.
  by rewrite lookup_replicate_2 by done.
Qed.

(** ** The neighbour count on bytes *)

Lemma suma_mod x1 x2 x3 x4 x5 x6 x7 x8 :
  (((((((x1 + x2) mod 256 + x3) mod 256 + x4) mod 256 + x5) mod 256
      + x6) mod 256 + x7) mod 256 + x8) mod 256
  = (x1 + x2 + x3 + x4 + x5 + x6 + x7 + x8) mod 256.
Proof.
  rewrite (Zplus_mod_idemp_l (x1 + x2)).
  rewrite (Zplus_mod_idemp_l (x1 + x2 + x3)).
  rewrite (Zplus_mod_idemp_l (x1 + x2 + x3 + x4)).
  rewrite (Zplus_mod_idemp_l (x1 + x2 + x3 + x4 + x5)).
  rewrite (Zplus_mod_idemp_l (x1 + x2 + x3 + x4 + x5 + x6)).
  by rewrite (Zplus_mod_idemp_l (x1 + x2 + x3 + x4 + x5 + x6 + x7)).
Qed.

(** On any grid the count is the sum of the 8 neighbours on the torus,
    wrapped around a byte. *)
Lemma celda_vecinos_de_mod R C g i j :
  de_forma R C g → (i < R)%nat → (j < C)%nat →
  celda_opt (vecinos_de g) i j = Some (vecinos_toroidales g i j mod 256).
Proof.
  intros Hg Hi Hj. unfold vecinos_de, valor.suma.
  rewrite !celda_opt_por_celda.
  rewrite !(celda_opt_roll_roll R C) by done. simpl.
  change (- (1)) with (-1). change (- 0) with 0. change (- (-1)) with 1.
  unfold vecinos_toroidales.
  destruct Hg as (HR & HC & _). rewrite HR, HC.
  f_equal. by rewrite suma_mod.
Qed.

Lemma celda_generacion_mod R C g i j :
  de_forma R C g → (i < R)%nat → (j < C)%nat →
  celda (generacion g) i j
  = regla_celda (celda g i j) (vecinos_toroidales g i j mod 256).
Proof.
  intros Hg Hi Hj. apply celda_de_opt. unfold generacion.
  rewrite celda_opt_regla, (celda_vecinos_de_mod R C) by done. simpl.
  by rewrite (de_forma_celda R C) by done.
Qed.

(** A multiple of 8 is neither 2 nor 3: where all the neighbours are alike,
    no cell lives on. *)
Lemma regla_celda_8 x y : regla_celda x ((8 * y) mod 256) = 0.
Proof.
  rewrite regla_celda_b2z.
  assert (H : (8 * y) mod 256 ≠ 3 ∧ (8 * y) mod 256 ≠ 2)
    by (Z.to_euclidean_division_equations; lia).
  destruct H as [H3 H2].
  apply Z.eqb_neq in H3, H2. rewrite H3, H2. by rewrite andb_false_r.
Qed.

Lemma vecinos_toroidales_constante R C x i j :
  (i < R)%nat → (j < C)%nat →
  vecinos_toroidales (constante R C x) i j = 8 * x.
Proof.
  intros Hi Hj. unfold vecinos_toroidales.
  pose proof (de_forma_constante R C x) as (HR & HC & _). rewrite HR, HC.
  rewrite !celda_constante by (apply envuelve_lt; lia). lia.
Qed.

(** A grid whose cells are all alike has no living cell a generation later:
    the empty grid stays empty, and the full one dies of overcrowding. *)
Lemma generacion_constante R C x :
  generacion (constante R C x) = constante R C 0.
Proof.
  apply (ndarray_ext R C).
  - apply de_forma_generacion, de_forma_constante.
  - apply de_forma_constante.
  - intros i j Hi Hj.
    rewrite (celda_generacion_mod R C) by (done || apply de_forma_constante).
    rewrite vecinos_toroidales_constante, !celda_constante by done.
    apply regla_celda_8.
Qed.

Lemma generaciones_constante R C x n :
  (0 < n)%nat → Nat.iter n generacion (constante R C x) = constante R C 0.
Proof.
  intros Hn. destruct n as [|n]; [lia|]. clear Hn.
  induction n as [|n IH].
  - apply generacion_constante.
  - change (Nat.iter (S (S n)) generacion (constante R C x))
      with (generacion (Nat.iter (S n) generacion (constante R C x))).
    rewrite IH. apply generacion_constante.
Qed.

(** ** The torus has no origin *)

Lemma envuelve_envuelve n i a b :
  (0 < n)%nat → envuelve n (envuelve n i a) b = envuelve n i (a + b).
Proof.
  intros Hn. unfold envuelve. f_equal.
  pose proof (Z.mod_pos_bound (Z.of_nat i + a) (Z.of_nat n) ltac:(lia)).
  rewrite Z2Nat.id by lia. rewrite Zplus_mod_idemp_l. f_equal. lia.
Qed.

Lemma envuelve_conmuta n i a b :
  (0 < n)%nat → envuelve n (envuelve n i a) b = envuelve n (envuelve n i b) a.
Proof.
  intros Hn. rewrite !envuelve_envuelve by done. f_equal. lia.
Qed.

Lemma celda_roll0 R C a shift i j :
  de_forma R C a → (i < R)%nat →
  celda (valor.roll a shift Eje0) i j = celda a (envuelve R i (- shift)) j.
Proof.
  intros Ha Hi.
  change (default 0 (celda_opt (valor.roll a shift Eje0) i j)
          = default 0 (celda_opt a (envuelve R i (- shift)) j)).
  by rewrite (celda_opt_roll0 R C).
Qed.

Lemma celda_roll1 R C a shift i j :
  de_forma R C a → (i < R)%nat → (j < C)%nat →
  celda (valor.roll a shift Eje1) i j = celda a i (envuelve C j (- shift)).
Proof.
  intros Ha Hi Hj.
  change (default 0 (celda_opt (valor.roll a shift Eje1) i j)
          = default 0 (celda_opt a i (envuelve C j (- shift)))).
  by rewrite (celda_opt_roll1 R C).
Qed.

Lemma vecinos_toroidales_roll0 R C g shift i j :
  de_forma R C g → (i < R)%nat → (j < C)%nat →
  vecinos_toroidales (valor.roll g shift Eje0) i j
  = vecinos_toroidales g (envuelve R i (- shift)) j.
Proof.
  intros Hg Hi Hj. unfold vecinos_toroidales.
  pose proof (de_forma_roll R C g shift Eje0 Hg) as (HR' & HC' & _).
  destruct Hg as (HR & HC & Hwf).
  rewrite HR', HC', HR, HC.
  rewrite !(celda_roll0 R C) by (done || apply envuelve_lt; lia).
  by rewrite !(envuelve_conmuta R i _ (- shift)) by lia.
Qed.

Lemma vecinos_toroidales_roll1 R C g shift i j :
  de_forma R C g → (i < R)%nat → (j < C)%nat →
  vecinos_toroidales (valor.roll g shift Eje1) i j
  = vecinos_toroidales g i (envuelve C j (- shift)).
Proof.
  intros Hg Hi Hj. unfold vecinos_toroidales.
  pose proof (de_forma_roll R C g shift Eje1 Hg) as (HR' & HC' & _).
  destruct Hg as (HR & HC & Hwf).
  rewrite HR', HC', HR, HC.
  rewrite !(celda_roll1 R C) by (done || apply envuelve_lt; lia).
  by rewrite !(envuelve_conmuta C j _ (- shift)) by lia.
Qed.

(** A generation of the shifted grid is the shifted generation. *)
Lemma generacion_roll R C g shift axis :
  de_forma R C g →
  generacion (valor.roll g shift axis) = valor.roll (generacion g) shift axis.
Proof.
  intros Hg. apply (ndarray_ext R C).
  - by apply de_forma_generacion, de_forma_roll.
  - by apply de_forma_roll, de_forma_generacion.
  - intros i j Hi Hj.
    rewrite (celda_generacion_mod R C) by (done || by apply de_forma_roll).
    destruct axis.
    + rewrite (celda_roll0 R C (generacion g))
        by (done || by apply de_forma_generacion).
      rewrite (celda_generacion_mod R C)
        by (done || apply envuelve_lt; lia).
      by rewrite (celda_roll0 R C), (vecinos_toroidales_roll0 R C) by done.
    + rewrite (celda_roll1 R C (generacion g))
        by (done || by apply de_forma_generacion).
      rewrite (celda_generacion_mod R C)
        by (done || apply envuelve_lt; lia).
      by rewrite (celda_roll1 R C), (vecinos_toroidales_roll1 R C) by done.
Qed.

Lemma generaciones_roll R C g shift axis n :
  de_forma R C g →
  Nat.iter n generacion (valor.roll g shift axis)
  = valor.roll (Nat.iter n generacion g) shift axis.
Proof.
  intros Hg. induction n as [|n IH]; [done|]. simpl.
  rewrite IH. apply (generacion_roll R C). by apply de_forma_generaciones.
Qed.

(** ** New arrays *)

Lemma nuevo_aloja w a : cabe a → aloja (nuevo a) w a.
Proof.
  intros Ha.
  pose proof (nuevo_spec w a Ha) as H. unfold calcula, logra in H.
  unfold aloja, logra. simpl in *. destruct H as [Hv Hw].
  split_and!; [done..| |done].
  apply not_elem_of_dom, is_fresh.
Qed.

Lemma op1_aloja f w v a :
  (∀ x, (nfilas (f x) ≤ nfilas x)%nat ∧ ncols (f x) = ncols x) →
  vale w v a → aloja (np.op1 f v) w (f a).
Proof.
  intros Hf Hv. unfold aloja, np.op1. apply logra_bind.
  eapply logra_mono; [by apply leer_spec|].
  intros x w' [-> ->]. apply nuevo_aloja.
  destruct (Hf a). eapply cabe_menor; [done..|]. by eapply vale_cabe.
Qed.

Lemma op2_aloja f w v1 v2 a b :
  (∀ x y, (nfilas (f x y) ≤ nfilas x)%nat ∧ ncols (f x y) = ncols x) →
  vale w v1 a → vale w v2 b → aloja (np.op2 f v1 v2) w (f a b).
Proof.
  intros Hf Hv1 Hv2. unfold aloja, np.op2. apply logra_bind.
  eapply logra_mono; [by apply leer_spec|].
  intros x w' [-> ->]. apply logra_bind.
  eapply logra_mono; [by apply leer_spec|].
  intros x' w' [-> ->]. apply nuevo_aloja.
  destruct (Hf a b). eapply cabe_menor; [done..|]. by eapply vale_cabe.
Qed.

Lemma solo_aloja_None w w' l :
  solo_aloja w w' → memoria w' !! l = None → memoria w !! l = None.
Proof. intros [(Hm & _) _] Hl. by eapply lookup_weaken_None. Qed.

Lemma aloja_bind (c : M vista) (k : vista → M vista) w a b :
  calcula c w a →
  (∀ v w', vale w' v a → solo_aloja w w' → aloja (k v) w' b) →
  aloja (c ≫= k) w b.
Proof.
  intros Hc Hk. unfold aloja. apply logra_bind.
  eapply logra_mono; [exact Hc|].
  intros v w' [Hv Hw]. eapply logra_mono; [by apply Hk|].
  intros v' w'' (Hv' & Hw' & Hl & Hi).
  split_and!; [done|by eapply solo_aloja_trans| |done].
  by eapply solo_aloja_None.
Qed.

Lemma aloja_bind_ret (c : M vista) w a :
  aloja c w a → aloja (c ≫= λ v, mret v) w a.
Proof.
  intros Hc. unfold aloja. apply logra_bind.
  eapply logra_mono; [exact Hc|].
  intros v w' H. by apply logra_ret.
Qed.

Ltac paso_al :=
  eapply aloja_bind;
  [ first [ eapply op1_spec; [forma_np|eassumption]
          | eapply op2_spec; [forma_np|eassumption..] ]
  | let v := fresh "v" in
    let w := fresh "w" in
    let Hv := fresh "Hv" in
    let Hw := fresh "Hw" in
    intros v w Hv Hw; lleva Hw; clear Hw ].

Lemma contar_vecinos_aloja w subgrilla g :
  vale w subgrilla g → aloja (contar_vecinos subgrilla) w (vecinos_de g).
Proof.
  intros Hg. unfold contar_vecinos, np.roll, np.add.
  do 22 paso_al. apply aloja_bind_ret.
  by eapply op2_aloja; [apply forma_por_celda|..].
Qed.

Lemma aplicar_regla_aloja w grilla vecinos g v :
  vale w grilla g → vale w vecinos v →
  aloja (aplicar_regla grilla vecinos) w (regla g v).
Proof.
  intros Hg Hv.
  unfold aplicar_regla, np.equal, np.bitwise_and, np.bitwise_or, np.astype_uint8.
  do 5 paso_al. exact (op1_aloja valor.astype_uint8 _ _ _ forma_astype Hv4).
Qed.

(** One step: the new grid is over a buffer that was not in the store. *)
Lemma step_aloja w self g :
  vale w (grilla self) g →
  logra (step self) w (λ self' w',
    vale w' (grilla self') (generacion g) ∧ solo_aloja w w' ∧
    self' = con_grilla self (grilla self') ∧
    memoria w !! base (grilla self') = None ∧ inicio (grilla self') = 0%nat).
Proof.
  intros Hg. unfold step. apply logra_bind.
  eapply logra_mono; [by apply contar_vecinos_spec|].
  intros vecinos w1 [Hv Hw1]. apply logra_bind.
  eapply logra_mono.
  { apply aplicar_regla_aloja; [by eapply vale_solo_aloja|done]. }
  intros g' w2 (Hg' & Hw2 & Hl & Hi). apply logra_ret. simpl.
  split_and!; [done|by eapply solo_aloja_trans|done| |done].
  by eapply solo_aloja_None.
Qed.

(** [n] steps: the game keeps its fields; without a step its grid is the
    array object it was, with one the grid is a new array. *)
Lemma pasos_aloja n w self g :
  vale w (grilla self) g →
  logra (for_range n step self) w (λ self' w',
    vale w' (grilla self') (Nat.iter n generacion g) ∧ solo_aloja w w' ∧
    self' = con_grilla self (grilla self') ∧
    (n = 0%nat → self' = self ∧ w' = w) ∧
    ((0 < n)%nat →
     memoria w !! base (grilla self') = None ∧ inicio (grilla self') = 0%nat)).
Proof.
  intros Hg.
  apply (for_range_spec (λ k self' w',
    vale w' (grilla self') (Nat.iter k generacion g) ∧ solo_aloja w w' ∧
    self' = con_grilla self (grilla self') ∧
    (k = 0%nat → self' = self ∧ w' = w) ∧
    ((0 < k)%nat →
     memoria w !! base (grilla self') = None ∧ inicio (grilla self') = 0%nat))).
  - split_and!; [done|apply solo_aloja_refl|by destruct self|done|lia].
  - intros k s w' _ (Hs & Hw' & Hself & _ & _).
    eapply logra_mono; [by apply step_aloja|].
    intros s' w'' (Hs' & Hw'' & Hself' & Hl & Hi).
    split_and!; [done|by eapply solo_aloja_trans| |lia|].
    + rewrite Hself', Hself. done.
    + intros _. split; [|done]. by eapply solo_aloja_None.
Qed.

(** ** The worker, in full *)

Lemma worker_aloja w subgrilla pasos g :
  vale w subgrilla g →
  logra (worker subgrilla pasos) w (λ r w',
    vale w' r (Nat.iter (Z.to_nat pasos) generacion g) ∧ conserva w w' ∧
    (∀ k, azar w' k
          = azar w (k + (vfilas subgrilla * vcols subgrilla + 3) / 4)%nat) ∧
    (pasos <= 0 → r = subgrilla) ∧
    (1 <= pasos → memoria w !! base r = None ∧ inicio r = 0%nat)).
Proof.
  intros Hg. unfold worker. apply logra_bind.
  eapply logra_mono; [by eapply init_spec, vale_forma|].
  intros juego w1 (g0 & _ & Hw1 & _ & _ & _ & _ & _ & _ & Haz).
  rewrite !Nat2Z.id in Haz. apply logra_bind.
  eapply logra_mono.
  { apply (pasos_aloja _ _ (con_grilla juego subgrilla) g).
    simpl. by eapply vale_conserva. }
  intros juego' w2 (Hg' & [Hw2 Haz2] & Hself & H0 & H1). apply logra_ret.
  split_and!.
  - done.
  - by eapply conserva_trans.
  - intros k. by rewrite Haz2, Haz.
  - intros Hp. destruct H0 as [-> _]; [lia|done].
  - intros Hp. destruct H1 as [Hl Hi]; [lia|]. split; [|done].
    destruct Hw1 as (Hm & _). by eapply lookup_weaken_None.
Qed.

(** Without a generation to run the worker does not read its argument: it
    only makes a grid of its shape. *)
Lemma worker_cero w subgrilla pasos :
  valor.forma_posible (Z.of_nat (vfilas subgrilla)) (Z.of_nat (vcols subgrilla))
  = true →
  pasos <= 0 →
  logra (worker subgrilla pasos) w (λ r w',
    r = subgrilla ∧ conserva w w' ∧
    ∀ k, azar w' k
         = azar w (k + (vfilas subgrilla * vcols subgrilla + 3) / 4)%nat).
Proof.
  intros Hforma Hp. unfold worker. apply logra_bind.
  eapply logra_mono; [by apply init_spec|].
  intros juego w1 (g0 & _ & Hw1 & _ & _ & _ & _ & _ & _ & Haz).
  rewrite !Nat2Z.id in Haz. rewrite Z2Nat.nonpos by done. simpl.
  apply logra_bind, logra_ret, logra_ret. simpl.
  split_and!; [done..|]. intros k. by rewrite Haz.
Qed.

(** ** The pool, in full *)

(** The results of the pool are the generations of the sub-grids, in the
    order of the arguments. *)
Lemma starmap_worker_vale w pasos subgrillas gs :
  Forall2 (vale w) subgrillas gs →
  logra (starmap_worker ((λ sg, (sg, pasos)) <$> subgrillas)) w (λ rs w',
    Forall2 (vale w') rs (Nat.iter (Z.to_nat pasos) generacion <$> gs) ∧
    solo_aloja w w' ∧
    Forall (λ r, memoria w !! base r = None) rs).
Proof.
  intros Hgs. revert w Hgs.
  induction subgrillas as [|sg sgs IH] in gs |- *; intros w Hgs.
  - apply Forall2_nil_inv_l in Hgs as ->. simpl. apply logra_ret.
    split_and!; [constructor|apply solo_aloja_refl|constructor].
  - apply Forall2_cons_inv_l in Hgs as (a & gs' & Ha & Hgs & ->). simpl.
    apply logra_bind. eapply logra_mono; [by apply leer_spec|].
    intros x w0 [-> ->]. apply logra_bind.
    eapply logra_mono.
    { apply (en_proceso_hijo_spec _ _
               (λ x _, x = Nat.iter (Z.to_nat pasos) generacion a ∧ cabe x)).
      apply logra_bind.
      eapply logra_mono; [by eapply nuevo_spec, vale_cabe|].
      intros sg' w1 [Hsg' Hw1]. apply logra_bind.
      eapply logra_mono; [by apply worker_spec|].
      intros r w2 [Hr Hw2]. eapply logra_mono; [by apply leer_spec|].
      intros x w3 [-> _]. split; [done|]. by eapply vale_cabe. }
    intros r w1 [-> [_ [-> Hcabe]]]. apply logra_bind.
    eapply logra_mono; [by apply nuevo_aloja|].
    intros vr w2 (Hvr & Hw2 & Hl & _). apply logra_bind.
    eapply logra_mono.
    { apply (IH gs'). eapply Forall2_impl; [exact Hgs|].
      intros v b. by apply vale_solo_aloja. }
    intros rs w3 (Hrs & Hw3 & Hls). apply logra_ret.
    split_and!.
    + constructor; [exact (vale_solo_aloja _ _ _ _ Hw3 Hvr)|exact Hrs].
    + by eapply solo_aloja_trans.
    + constructor; [done|]. eapply Forall_impl; [exact Hls|].
      intros r Hr. by eapply solo_aloja_None.
Qed.

(** ** The bands *)

Lemma banda_unica ary : banda ary 1 0 = ary.
Proof.
  destruct ary as [b i f c]. unfold banda. cbn [base inicio vfilas vcols].
  rewrite corte_0, (corte_total f 1) by lia. f_equal; lia.
Qed.

Lemma banda_filas ary n i :
  vfilas (banda ary n i)
  = (vfilas ary / n + (if decide (i < vfilas ary `mod` n) then 1 else 0))%nat.
Proof. unfold banda. simpl. rewrite corte_S. lia. Qed.

(** The bands of a grid that the store holds show its rows, band by band. *)
Lemma bandas_valen w ary n g :
  (0 < n)%nat → vale w ary g →
  ∃ gs, Forall2 (vale w) (banda ary n <$> seq 0 n) gs ∧
        concat (datos <$> gs) = datos g ∧
        Forall (λ b, ncols b = ncols g) gs.
Proof.
  intros Hn Hg. unfold vale in Hg.
  apply leer_en_Some in Hg as (buf & Hbuf & Hforma & ->).
  set (mostrar := λ b : vista,
         Ndarray (vcols b) (take (vfilas b) (drop (inicio b) buf))).
  exists (mostrar <$> (banda ary n <$> seq 0 n)).
  split_and!.
  - apply Forall2_fmap_r, Forall_Forall2_diag, Forall_fmap, Forall_forall.
    intros i _. apply leer_en_Some. exists buf.
    split_and!; [done| |done].
    eapply forma_posible_menor; [|exact Hforma].
    pose proof (banda_menor ary n i). simpl in *. lia.
  - rewrite <- list_fmap_compose.
    change (datos ∘ mostrar)
      with (λ b : vista, take (vfilas b) (drop (inicio b) buf)).
    rewrite (bandas_concat ary n n buf).
    by rewrite corte_total by lia.
  - apply Forall_fmap, Forall_fmap, Forall_forall. by intros i _.
Qed.

(** ** Which exception *)

Lemma bind_ok {A B : Type} (c : M A) (k : A → M B) w a w' :
  c w = Ok (a, w') → (c ≫= k) w = k a w'.
Proof. unfold mbind, M_bind. by intros ->. Qed.

Lemma bind_error {A B : Type} (c : M A) (k : A → M B) w e :
  c w = Error e → (c ≫= k) w = Error e.
Proof. unfold mbind, M_bind. by intros ->. Qed.

(** The square root of a negative int64 is NaN, of which [int] makes a
    [ValueError]; an int below the int64 is no float at all. *)
Lemma lado_de_negativo_excepcion x :
  x < 0 →
  lado_de x = Error (if x <? - 2 ^ 63 then TypeError else ValueError).
Proof.
  intros Hx. unfold lado_de, valor.sqrt.
  destruct (Z.ltb_spec x (- 2 ^ 63)) as [Hlt|Hge]; [done|].
  destruct (Z.leb_spec (2 ^ 64) x) as [Hle|_]; [lia|]. simpl.
  pose proof (float64_negativo x Hx) as H.
  by destruct (valor.float64 x) as [s|[]| |[] m e].
Qed.

Lemma iteracion_excepcion_lado celdas_por_proceso pasos p tiempos w e :
  lado_de (celdas_por_proceso * p) = Error e →
  iteracion celdas_por_proceso pasos p tiempos w = Error e.
Proof.
  intros He. unfold lado_de in He. unfold iteracion.
  destruct (valor.sqrt (celdas_por_proceso * p)) as [raiz|e'] eqn:Hraiz.
  - rewrite (bind_ok _ _ w raiz w) by (unfold np.sqrt; by rewrite Hraiz).
    apply bind_error. unfold int_. by rewrite He.
  - injection He as ->. apply bind_error. unfold np.sqrt. by rewrite Hraiz.
Qed.

Lemma iteracion_excepcion_p celdas_por_proceso pasos p tiempos w lado :
  lado_de (celdas_por_proceso * p) = Ok lado → p <= 0 →
  iteracion celdas_por_proceso pasos p tiempos w = Error ValueError.
Proof.
  intros Hlado Hp. unfold lado_de in Hlado. unfold iteracion.
  destruct (valor.sqrt (celdas_por_proceso * p)) as [raiz|e'] eqn:Hraiz;
    [|done].
  rewrite (bind_ok _ _ w raiz w) by (unfold np.sqrt; by rewrite Hraiz).
  rewrite (bind_ok _ _ w lado w) by (unfold int_; by rewrite Hlado).
  destruct (valor.forma_posible lado lado) eqn:Hforma.
  - destruct (logra_inv _ _ _ (init_spec w lado lado pasos p Hforma))
      as (juego & w1 & Hinit & _).
    rewrite (bind_ok _ _ _ _ _ Hinit).
    apply bind_error. by apply array_split_error.
  - apply bind_error. by apply init_error.
Qed.

Lemma para_cada_app celdas_por_proceso pasos ps1 ps2 tiempos w :
  para_cada celdas_por_proceso pasos (ps1 ++ ps2) tiempos w
  = match para_cada celdas_por_proceso pasos ps1 tiempos w with
    | Ok (ts, w') => para_cada celdas_por_proceso pasos ps2 ts w'
    | Error e => Error e
    end.
Proof.
  revert tiempos w. induction ps1 as [|p ps1 IH]; intros tiempos w; [done|].
  simpl. unfold mbind, M_bind.
  destruct (iteracion celdas_por_proceso pasos p tiempos w) as [[ts w']|e];
    [apply IH|done].
Qed.

Lemma lados_exactos celdas_por_proceso ps :
  Forall (λ p, 1 <= p ∧ 0 <= celdas_por_proceso * p < 2 ^ 52) ps →
  Forall2 (λ p lado, 1 <= p ∧ lado_de (celdas_por_proceso * p) = Ok lado ∧
                     valor.forma_posible lado lado = true)
    ps ((λ p, Z.sqrt (celdas_por_proceso * p)) <$> ps).
Proof.
  intros H. apply Forall2_fmap_r, Forall_Forall2_diag.
  eapply Forall_impl; [exact H|]. intros p [Hp Hx].
  split_and!; [done|by apply lado_de_exacto|by apply forma_posible_raiz].
Qed.

(** ** The clock *)

Lemma duraciones_lookup r n i :
  (i < n)%nat →
  duraciones r n !! i = Some (r (2 * i + 1)%nat - r (2 * i)%nat)%Q.
Proof.
  revert r i. induction n as [|n IH]; intros r i Hi; [lia|].
  destruct i as [|i]; [done|]. simpl duraciones. simpl lookup.
  rewrite IH by lia.
  replace (2 * S i + 1)%nat with (S (S (2 * i + 1))) by lia.
  by replace (2 * S i)%nat with (S (S (2 * i))) by lia.
Qed.

(** ** The square root of an int64 or uint64 is no infinity *)

Lemma Zdigits2_cota m K : 0 <= m < 2 ^ K → 0 <= K → Zdigits2 m <= K.
Proof.
  intros [Hm0 Hm] HK. destruct m as [|m|m]; [done| |lia]. simpl.
  pose proof (digits2_pos_bound m) as Hd.
  destruct (Z.le_gt_cases (Z.pos (digits2_pos m)) K) as [|Hgt]; [done|].
  pose proof (Z.pow_le_mono_r 2 K (Z.pos (digits2_pos m) - 1)
                ltac:(lia) ltac:(lia)). lia.
Qed.

(** The shift to the format: the mantissa does not grow, the exponent does
    not shrink, and it is at most the exponent of the format for the digits
    of the mantissa. *)
Lemma shr_fexp_cotas m e l K :
  0 <= m < 2 ^ K → 0 <= K →
  0 <= shr_m (shr_fexp valor.prec valor.emax m e l).1 <= m ∧
  e <= (shr_fexp valor.prec valor.emax m e l).2
    <= Z.max e (Z.max (K + e - 53) (-1074)).
Proof.
  intros Hm HK. pose proof (Zdigits2_cota m K Hm HK) as Hd.
  unfold shr_fexp, shr, fexp, emin, valor.prec, valor.emax.
  set (D := Zdigits2 m) in *.
  destruct (Z.max (D + e - 53) (3 - 1024 - 53) - e) as [|p|p] eqn:Hn; simpl;
    rewrite ?shr_record_of_loc_m; try lia.
  rewrite iter_pos_shr_1_m by (rewrite shr_record_of_loc_m; lia).
  rewrite shr_record_of_loc_m.
  assert (Hq : 0 < 2 ^ Z.pos p) by (by apply Z.pow_pos_nonneg).
  split_and!; [apply Z.div_pos; lia| |lia..].
  apply Z.div_le_upper_bound; [done|]. nia.
Qed.

Lemma round_nearest_even_le m l : round_nearest_even m l <= m + 1.
Proof. destruct l as [|[]]; simpl; try destruct (Z.even m); lia. Qed.

(** Rounding a mantissa that is not negative, far below the largest
    exponent: the result is a zero or a finite float that is not negative,
    its exponent is not below the one it was given, and is bounded. *)
Lemma binary_round_aux_cotas m e l K :
  0 <= m < 2 ^ K → 0 <= K → -1074 <= e → 2 * K + e <= 971 →
  match binary_round_aux valor.prec valor.emax false m e l with
  | S754_zero false => True
  | S754_finite false m' e' => e <= e' <= 2 * K + e ∧ Z.pos m' < 2 ^ (K + 1)
  | _ => False
  end.
Proof.
  intros Hm HK He HKe. unfold binary_round_aux.
  destruct (shr_fexp_cotas m e l K Hm HK) as [H1 H1e].
  destruct (shr_fexp _ _ m e l) as [mrs' e']. simpl in H1, H1e.
  pose proof (round_nearest_even_ge (shr_m mrs') (loc_of_shr_record mrs')) as Hge.
  pose proof (round_nearest_even_le (shr_m mrs') (loc_of_shr_record mrs')) as Hle.
  set (m1 := round_nearest_even (shr_m mrs') (loc_of_shr_record mrs')) in *.
  assert (Hm1 : 0 <= m1 < 2 ^ (K + 1)).
  { rewrite Z.pow_add_r by lia. lia. }
  destruct (shr_fexp_cotas m1 e' loc_Exact (K + 1) Hm1 ltac:(lia)) as [H2 H2e].
  destruct (shr_fexp _ _ m1 e' loc_Exact) as [mrs'' e'']. simpl in H2, H2e.
  destruct (shr_m mrs'') as [|m2|m2]; [done| |lia].
  unfold valor.prec, valor.emax.
  destruct (Z.leb_spec e'' (1024 - 53)); lia.
Qed.

(** The float64 of a positive int below [2^64]. *)
Lemma float64_cotas x :
  0 < x < 2 ^ 64 →
  match valor.float64 x with
  | S754_zero false => True
  | S754_finite false m e => -52 <= e <= 128 ∧ Z.pos m < 2 ^ 65
  | _ => False
  end.
Proof.
  intros Hx. unfold valor.float64, binary_normalize.
  destruct x as [|mx|mx]; [lia| |lia].
  unfold binary_round.
  destruct (shl_align mx 0 _) as [mz ez] eqn:Hsh.
  assert (Hz : Z.pos mz < 2 ^ 64 ∧ -52 <= ez <= 0).
  { unfold shl_align, fexp, emin, valor.prec, valor.emax in Hsh.
    pose proof (digits2_pos_cota mx) as Hc.
    set (D := Z.pos (digits2_pos mx)) in *.
    assert (0 < D) by (unfold D; lia).
    destruct (Z.max (D + 0 - 53) (3 - 1024 - 53) - 0) as [|d|d] eqn:Hn;
      injection Hsh as <- <-; [lia..|].
    rewrite iter_xO. split; [|lia].
    assert (Hd : Z.pos d = 53 - D) by lia. rewrite Hd.
    apply Z.lt_le_trans with (2 ^ D * 2 ^ (53 - D)).
    - apply Z.mul_lt_mono_pos_r; [apply Z.pow_pos_nonneg; lia|done].
    - rewrite <- Z.pow_add_r by lia.
      apply Z.pow_le_mono_r; lia. }
  destruct Hz as [Hmz Hez].
  pose proof (binary_round_aux_cotas (Z.pos mz) ez loc_Exact 64
                ltac:(lia) ltac:(lia) ltac:(lia) ltac:(lia)) as H.
  destruct (binary_round_aux _ _ _ _ _ _) as [[]|[]| |[] m e]; try done.
  change (64 + 1) with 65 in H. lia.
Qed.

(** The square root of such a float is a zero or a finite float. *)
Lemma SFsqrt_finita m e :
  Z.pos m < 2 ^ 65 → -52 <= e <= 128 →
  match SFsqrt valor.prec valor.emax (S754_finite false m e) with
  | S754_zero false | S754_finite false _ _ => True
  | _ => False
  end.
Proof.
  intros Hm He. unfold SFsqrt, SFsqrt_core_binary.
  pose proof (Zdigits2_cota (Z.pos m) 65 ltac:(lia) ltac:(lia)) as Hd.
  assert (Hd0 : 0 < Zdigits2 (Z.pos m)) by (simpl; lia).
  set (D := Zdigits2 (Z.pos m)) in *.
  unfold fexp, emin, valor.prec, valor.emax. rewrite !Z.div2_div.
  set (es := Z.min (Z.max ((D + e + 1) / 2 - 53) (3 - 1024 - 53)) (e / 2)).
  assert (Hes : -80 <= es <= 64 ∧ 0 <= e - 2 * es <= 300).
  { unfold es. Z.to_euclidean_division_equations. lia. }
  destruct Hes as [Hes Hs].
  set (m' := match e - 2 * es with
             | 0 => Z.pos m
             | Z.pos _ => Z.shiftl (Z.pos m) (e - 2 * es)
             | Z.neg _ => 0
             end).
  assert (Hm' : 0 <= m' < 2 ^ 365).
  { unfold m'. destruct (e - 2 * es) as [|s|s] eqn:Hse; [lia| |lia].
    rewrite Z.shiftl_mul_pow2 by lia.
    assert (0 < 2 ^ Z.pos s) by (by apply Z.pow_pos_nonneg).
    split; [lia|].
    apply Z.lt_le_trans with (2 ^ 65 * 2 ^ Z.pos s).
    - by apply Z.mul_lt_mono_pos_r.
    - rewrite <- Z.pow_add_r by lia. apply Z.pow_le_mono_r; lia. }
  pose proof (Z.sqrtrem_spec m' ltac:(lia)) as Hsq.
  pose proof (Z.sqrtrem_sqrt m') as Hfst.
  pose proof (Z.sqrt_nonneg m') as Hq0.
  destruct (Z.sqrtrem m') as [q r]. simpl in Hfst. subst q.
  assert (Hq : 0 <= Z.sqrt m' < 2 ^ 365) by nia.
  pose proof (binary_round_aux_cotas (Z.sqrt m') es
                (if r =? 0 then loc_Exact
                 else loc_Inexact (if r <=? Z.sqrt m' then Lt else Gt))
                365 Hq ltac:(lia) ltac:(lia) ltac:(lia)) as H.
  by destruct (binary_round_aux _ _ _ _ _ _) as [[]|[]| |[] m2 e2].
Qed.

(** So [int(np.sqrt(x))] returns for every int that is an uint64 and not
    negative: it raises neither on a NaN nor on an infinity. *)
Lemma lado_de_retorna x : 0 <= x < 2 ^ 64 → ∃ lado, lado_de x = Ok lado.
Proof.
  intros Hx. unfold lado_de, valor.sqrt.
  destruct (Z.ltb_spec x (- 2 ^ 63)) as [|_]; [lia|].
  destruct (Z.leb_spec (2 ^ 64) x) as [|_]; [lia|]. simpl.
  destruct (decide (x = 0)) as [->|Hx0]; [by exists 0|].
  pose proof (float64_cotas x ltac:(lia)) as Hf.
  destruct (valor.float64 x) as [[]|[]| |[] m e]; try done.
  - by exists 0.
  - destruct Hf as [He Hm]. pose proof (SFsqrt_finita m e Hm He) as Hs.
    destruct (SFsqrt _ _ _) as [[]|[]| |[] m2 e2]; try done; simpl; eauto.
Qed.

(** [int(np.sqrt(x))] raises a [ValueError] or a [TypeError], and nothing
    else. *)
Lemma lado_de_excepcion x e :
  lado_de x = Error e → e = ValueError ∨ e = TypeError.
Proof.
  intros He. destruct (Z.lt_ge_cases x 0) as [Hneg|Hpos].
  - rewrite lado_de_negativo_excepcion in He by done.
    injection He as <-. destruct (_ <? _); auto.
  - destruct (Z.lt_ge_cases x (2 ^ 64)) as [Hlt|Hge].
    + destruct (lado_de_retorna x ltac:(lia)) as [lado Hl]. congruence.
    + unfold lado_de, valor.sqrt in He.
      destruct (Z.leb_spec (2 ^ 64) x) as [_|]; [|lia].
      rewrite orb_true_r in He. injection He as <-. auto.
Qed.

(** ** What the harness raises *)

Lemma iteracion_excepcion_forma celdas_por_proceso pasos p tiempos w lado :
  lado_de (celdas_por_proceso * p) = Ok lado →
  valor.forma_posible lado lado = false →
  iteracion celdas_por_proceso pasos p tiempos w = Error ValueError.
Proof.
  intros Hlado Hforma. unfold lado_de in Hlado. unfold iteracion.
  destruct (valor.sqrt (celdas_por_proceso * p)) as [raiz|e'] eqn:Hraiz;
    [|done].
  rewrite (bind_ok _ _ w raiz w) by (unfold np.sqrt; by rewrite Hraiz).
  rewrite (bind_ok _ _ w lado w) by (unfold int_; by rewrite Hlado).
  apply bind_error. by apply init_error.
Qed.

(** An iteration that raises, raises a [ValueError] or a [TypeError]. *)
Lemma iteracion_excepcion celdas_por_proceso pasos p tiempos w e :
  iteracion celdas_por_proceso pasos p tiempos w = Error e →
  e = ValueError ∨ e = TypeError.
Proof.
  intros He.
  destruct (lado_de (celdas_por_proceso * p)) as [lado|e'] eqn:Hlado.
  - destruct (valor.forma_posible lado lado) eqn:Hforma.
    + destruct (Z.lt_ge_cases p 1) as [Hp|Hp].
      * rewrite (iteracion_excepcion_p _ _ _ _ _ lado) in He by (done || lia).
        injection He as <-. auto.
      * pose proof (iteracion_spec celdas_por_proceso pasos p tiempos lado w
                      Hp Hlado Hforma) as H.
        unfold logra in H. by rewrite He in H.
    + rewrite (iteracion_excepcion_forma _ _ _ _ _ lado) in He by done.
      injection He as <-. auto.
  - rewrite (iteracion_excepcion_lado _ _ _ _ _ e') in He by done.
    injection He as <-. by eapply lado_de_excepcion.
Qed.

Lemma para_cada_excepcion celdas_por_proceso pasos ps tiempos w e :
  para_cada celdas_por_proceso pasos ps tiempos w = Error e →
  e = ValueError ∨ e = TypeError.
Proof.
  revert tiempos w. induction ps as [|p ps IH]; intros tiempos w; [done|].
  simpl. unfold mbind, M_bind.
  destruct (iteracion celdas_por_proceso pasos p tiempos w) as [[ts w']|e']
    eqn:Hit.
  - apply IH.
  - intros [= <-]. by eapply iteracion_excepcion.
Qed.

(** ** The cells of a new grid and the bits of the generator *)

Lemma otra_celda_bit azar k n b :
  0 <= b →
  Z.testbit (otra_celda azar k n) b
  = if decide (n = (k / 4)%nat ∧ b = 8 * Z.of_nat (k mod 4))
    then negb (Z.testbit (azar n) b)
    else Z.testbit (azar n) b.
Proof.
  intros Hb. unfold otra_celda.
  destruct (decide (n = (k / 4)%nat)) as [->|Hn].
  - rewrite Z.lxor_spec.
    destruct (decide (b = 8 * Z.of_nat (k mod 4))) as [->|Hne].
    + rewrite Z.pow2_bits_true by lia. rewrite xorb_true_r.
      by rewrite decide_True.
    + rewrite Z.pow2_bits_false by lia. rewrite xorb_false_r.
      rewrite decide_False; [done|]. by intros [_ ?].
  - rewrite decide_False; [done|]. by intros [? _].
Qed.

Lemma otra_celda_rango azar k n :
  0 <= azar n < 2 ^ 32 → 0 <= otra_celda azar k n < 2 ^ 32.
Proof.
  intros Ha. unfold otra_celda. case_decide; [|done].
  set (b := 2 ^ (8 * Z.of_nat (k mod 4))).
  pose proof (Nat.mod_upper_bound k 4 ltac:(lia)) as Hr.
  assert (Hb : 0 < b) by (apply Z.pow_pos_nonneg; lia).
  assert (Hx : 0 <= Z.lxor (azar n) b) by (apply Z.lxor_nonneg; lia).
  split; [done|].
  destruct (decide (Z.lxor (azar n) b = 0)) as [->|Hx0]; [done|].
  apply Z.log2_lt_pow2; [lia|].
  pose proof (Z.log2_lxor (azar n) b ltac:(lia) ltac:(lia)) as Hl.
  assert (Z.log2 b < 32).
  { unfold b. rewrite Z.log2_pow2 by lia. lia. }
  assert (Z.log2 (azar n) < 32).
  { destruct (decide (azar n = 0)) as [->|]; [done|].
    apply Z.log2_lt_pow2; lia. }
  lia.
Qed.

Lemma otra_celda_otra_celda azar k n :
  otra_celda (otra_celda azar k) k n = azar n.
Proof.
  unfold otra_celda. case_decide; [|done].
  by rewrite Z.lxor_assoc, Z.lxor_nilpotent, Z.lxor_0_r.
Qed.

Lemma otra_celda_resto azar k n :
  n ≠ (k / 4)%nat → otra_celda azar k n = azar n.
Proof. intros Hn. unfold otra_celda. by rewrite decide_False. Qed.

(** The change flips cell [k] and no other cell. *)
Lemma celda_sorteada_otra azar k :
  valor.celda_sorteada (otra_celda azar k) k
  = 1 - valor.celda_sorteada azar k.
Proof.
  unfold valor.celda_sorteada. rewrite otra_celda_bit by lia.
  rewrite decide_True by done. by destruct (Z.testbit _ _).
Qed.

Lemma celda_sorteada_otra_ne azar k k' :
  k' ≠ k →
  valor.celda_sorteada (otra_celda azar k) k'
  = valor.celda_sorteada azar k'.
Proof.
  intros Hk. unfold valor.celda_sorteada. rewrite otra_celda_bit by lia.
  rewrite decide_False; [done|]. intros [Hd Hm]. apply Hk.
  rewrite (Nat.div_mod_eq k' 4), (Nat.div_mod_eq k 4). lia.
Qed.

(** Two cells of a grid have two numbers. *)
Lemma numero_de_celda C i j i' j' :
  (j < C)%nat → (j' < C)%nat → (i', j') ≠ (i, j) →
  (i' * C + j')%nat ≠ (i * C + j)%nat.
Proof.
  intros Hj Hj' Hne Heq. apply Hne.
  assert (i' = i) by nia. subst i'. f_equal. lia.
Qed.

(** * The program on small grids *)

(** In the full grid of 3 x 3 every cell has 8 neighbours, and dies. *)
Example vecinos_de_llena :
  vecinos_de llena = Ndarray 3 [[8; 8; 8]; [8; 8; 8]; [8; 8; 8]].
Proof. reflexivity. Qed.

Example generacion_llena :
  generacion llena = Ndarray 3 [[0; 0; 0]; [0; 0; 0]; [0; 0; 0]].
Proof. reflexivity. Qed.

(** The block is a still life. *)
Example bloque_estable : Nat.iter 25 generacion bloque = bloque.
Proof. by vm_compute. Qed.

(** The step of a game, and the worker, on the store. *)
Example step_lleno :
  match step juego_lleno (mundo_con (datos llena)) with
  | Ok (juego, w') =>
      leer_en (memoria w') (grilla juego)
        = Some (Ndarray 3 [[0; 0; 0]; [0; 0; 0]; [0; 0; 0]]) ∧
      leer_en (memoria w') (grilla juego_lleno) = Some llena
  | Error _ => False
  end.
Proof. by vm_compute. Qed.

Example worker_bloque :
  match worker (Vista 0 0 4 4) 3 (mundo_con (datos bloque)) with
  | Ok (r, w') => leer_en (memoria w') r = Some bloque
  | Error _ => False
  end.
Proof. by vm_compute. Qed.

(** A band of a grid is a torus of its own: alone, rows 1 and 2 of the block
    wrap onto each other, and the block does not stay. *)
Example worker_banda :
  match worker (Vista 0 1 2 4) 1 (mundo_con (datos bloque)) with
  | Ok (r, w') => leer_en (memoria w') r = Some (Ndarray 4 [[1; 0; 0; 1]; [1; 0; 0; 1]])
  | Error _ => False
  end.
Proof. by vm_compute. Qed.

(** 7 rows in 3 bands: 3, 2 and 2 rows. *)
Example array_split_7_3 :
  np.array_split (Vista 0 0 7 2) 3 mundo0
  = Ok ([Vista 0 0 3 2; Vista 0 3 2 2; Vista 0 5 2 2], mundo0).
Proof. reflexivity. Qed.

(** The sides of the program's own configuration. *)
Example lados_del_programa :
  lado_de <$> ((λ p, 250000 * p) <$> [1; 2; 4; 8])
  = Ok <$> [500; 707; 1000; 1414].
Proof. by vm_compute. Qed.

(** * The claims *)

(** ** The step *)

(** C1. For every grid of 0/1 cells, one step of a game returns, and its new
    grid has the rows and columns of the old one; a cell of it is 1 exactly
    when the toroidal neighbour count of that cell in the old grid is 3, or
    the cell was 1 and the count is 2, and 0 otherwise.  The count wraps
    modulo the rows and columns of the grid.  The rule is read off the whole
    prior generation: the new grid is another array, and the old one is
    still there, unchanged, after the step. *)
Theorem C1_step_regla (w : mundo) (self : JuegoDeLaVida) (g : ndarray) :
  vale w (grilla self) g → bien_formada g → binaria g →
  ∃ self' w' g',
    step self w = Ok (self', w') ∧
    vale w' (grilla self') g' ∧
    nfilas g' = nfilas g ∧ ncols g' = ncols g ∧ bien_formada g' ∧
    (∀ i j, (i < nfilas g)%nat → (j < ncols g)%nat →
       (celda g' i j = 1 ↔
          vecinos_toroidales g i j = 3 ∨
          (celda g i j = 1 ∧ vecinos_toroidales g i j = 2)) ∧
       (celda g' i j = 0 ∨ celda g' i j = 1)) ∧
    vale w' (grilla self) g.
Proof.
  intros Hg Hwf Hbin.
  destruct (logra_inv _ _ _ (step_spec w self g Hg))
    as (self' & w' & Hstep & Hg' & Hw' & _).
  exists self', w', (generacion g).
  destruct (de_forma_generacion (nfilas g) (ncols g) g) as (HR & HC & Hwf');
    [done|].
  split_and!; try done.
  - intros i j Hi Hj. split.
    + by apply generacion_regla.
    + apply binaria_celda, binaria_generacion.
  - by eapply vale_solo_aloja.
Qed.

Lemma C1_step_regla_witness :
  vale (mundo_con (datos llena)) (grilla juego_lleno) llena ∧
  ∃ self' w' g',
    step juego_lleno (mundo_con (datos llena)) = Ok (self', w') ∧
    vale w' (grilla self') g' ∧ nfilas g' = 3%nat ∧ ncols g' = 3%nat ∧
    celda g' 1 1 = 0.
Proof.
  assert (Hv : vale (mundo_con (datos llena)) (grilla juego_lleno) llena)
    by (vm_compute; reflexivity).
  assert (Hwf : bien_formada llena) by (repeat constructor).
  assert (Hbin : binaria llena) by (repeat constructor; auto).
  split; [exact Hv|].
  destruct (C1_step_regla _ _ _ Hv Hwf Hbin)
    as (self' & w' & g' & Hs & Hg' & HR & HC & _ & Hregla & _).
  exists self', w', g'. split_and!; [exact Hs|exact Hg'|exact HR|exact HC|].
  clear Hs Hg'.
  destruct (Hregla 1%nat 1%nat) as [Hiff [H0 | H1]];
    [unfold nfilas; simpl; lia|simpl; lia|exact H0|].
  apply Hiff in H1. vm_compute in H1.
  destruct H1 as [H1 | [_ H1]]; discriminate H1.
Defined.

(** C2. For every grid of 0/1 cells and every number of generations, that
    many steps of a game return a grid with the same rows, the same columns
    and cells that are still 0 or 1; and so does the worker run for that
    many generations. *)
Theorem C2_generaciones (w : mundo) (self : JuegoDeLaVida) (g : ndarray)
    (n : nat) :
  vale w (grilla self) g → bien_formada g → binaria g →
  (∃ self' w' g',
     for_range n step self w = Ok (self', w') ∧
     vale w' (grilla self') g' ∧
     nfilas g' = nfilas g ∧ ncols g' = ncols g ∧
     bien_formada g' ∧ binaria g') ∧
  (∃ r w' g',
     worker (grilla self) (Z.of_nat n) w = Ok (r, w') ∧
     vale w' r g' ∧
     nfilas g' = nfilas g ∧ ncols g' = ncols g ∧
     bien_formada g' ∧ binaria g').
Proof.
  intros Hg Hwf Hbin.
  destruct (de_forma_generaciones (nfilas g) (ncols g) n g) as (HR & HC & Hwf');
    [done|].
  pose proof (binaria_generaciones n g Hbin) as Hbin'.
  split.
  - destruct (logra_inv _ _ _ (pasos_spec n w self g Hg))
      as (self' & w' & Hrun & Hg' & _).
    by exists self', w', (Nat.iter n generacion g).
  - destruct (logra_inv _ _ _ (worker_spec w (grilla self) (Z.of_nat n) g Hg))
      as (r & w' & Hrun & Hg' & _).
    rewrite Nat2Z.id in Hg'.
    by exists r, w', (Nat.iter n generacion g).
Qed.

Lemma C2_generaciones_witness :
  vale (mundo_con (datos llena)) (grilla juego_lleno) llena ∧
  ∃ self' w' g',
    for_range 7 step juego_lleno (mundo_con (datos llena)) = Ok (self', w') ∧
    vale w' (grilla self') g' ∧ nfilas g' = 3%nat ∧ ncols g' = 3%nat ∧
    binaria g'.
Proof.
  assert (Hv : vale (mundo_con (datos llena)) (grilla juego_lleno) llena)
    by (vm_compute; reflexivity).
  assert (Hwf : bien_formada llena) by (repeat constructor).
  assert (Hbin : binaria llena) by (repeat constructor; auto).
  split; [exact Hv|].
  destruct (C2_generaciones _ _ _ 7 Hv Hwf Hbin)
    as [(self' & w' & g' & Hs & Hg' & HR & HC & _ & Hb) _].
  exists self', w', g'.
  split_and!; [exact Hs|exact Hg'|exact HR|exact HC|exact Hb].
Defined.

(** ** The partition *)

(** C3. For every grid of [R] rows and every [n] with [1 <= n <= R],
    [np.array_split] returns exactly [n] bands; their row counts add up to
    [R] and differ pairwise by at most 1; every band is a view of the
    grid's buffer with the grid's column count, and it starts at the row
    where the bands before it end: the bands are contiguous, without
    overlap or gap, in order from the top. *)
Theorem C3_bandas (w : mundo) (ary : vista) (n : Z) :
  1 <= n <= Z.of_nat (vfilas ary) →
  ∃ bandas,
    np.array_split ary n w = Ok (bandas, w) ∧
    length bandas = Z.to_nat n ∧
    sum_list_with vfilas bandas = vfilas ary ∧
    (∀ b1 b2, b1 ∈ bandas → b2 ∈ bandas → (vfilas b1 ≤ vfilas b2 + 1)%nat) ∧
    (∀ i b, bandas !! i = Some b →
       base b = base ary ∧ vcols b = vcols ary ∧
       inicio b = (inicio ary + sum_list_with vfilas (take i bandas))%nat).
Proof.
  intros [Hn HR]. exists (banda ary (Z.to_nat n) <$> seq 0 (Z.to_nat n)).
  split_and!.
  - by apply array_split_ok.
  - by rewrite length_fmap, length_seq.
  - rewrite bandas_suma. apply corte_total. lia.
  - intros b1 b2 [i1 H1]%list_elem_of_lookup [i2 H2]%list_elem_of_lookup.
    apply bandas_lookup in H1 as [_ ->]. apply bandas_lookup in H2 as [_ ->].
    simpl. rewrite !corte_S. repeat case_decide; lia.
  - intros i b [Hi ->]%bandas_lookup.
    by rewrite bandas_take, bandas_suma by lia.
Qed.

Lemma C3_bandas_witness :
  ∃ bandas,
    np.array_split vista_cinco 3 (mundo_con (datos cinco))
      = Ok (bandas, mundo_con (datos cinco)) ∧
    length bandas = 3%nat ∧ sum_list_with vfilas bandas = 5%nat.
Proof.
  destruct (C3_bandas (mundo_con (datos cinco)) vista_cinco 3)
    as (bandas & Hs & Hl & Hsum & _); [simpl; lia|].
  exists bandas. split_and!; [exact Hs|exact Hl|exact Hsum].
Defined.

(** C4. For every grid and every band count of at least 1 (so for every
    [1 <= n <= R]), the arrays that the bands of [np.array_split] show, put
    one after the other in the order of the result, are the rows of the
    grid: the same rows in the same order, with the grid's column count. *)
Theorem C4_reensamblado (w : mundo) (ary : vista) (n : Z) (g : ndarray) :
  1 <= n → vale w ary g →
  ∃ bandas gs,
    np.array_split ary n w = Ok (bandas, w) ∧
    Forall2 (vale w) bandas gs ∧
    concat (datos <$> gs) = datos g ∧
    Forall (λ b, ncols b = ncols g) gs.
Proof.
  intros Hn Hg. unfold vale in Hg.
  apply leer_en_Some in Hg as (buf & Hbuf & Hforma & ->).
  set (mostrar := λ b : vista,
         Ndarray (vcols b) (take (vfilas b) (drop (inicio b) buf))).
  exists (banda ary (Z.to_nat n) <$> seq 0 (Z.to_nat n)),
         (mostrar <$> (banda ary (Z.to_nat n) <$> seq 0 (Z.to_nat n))).
  split_and!.
  - by apply array_split_ok.
  - apply Forall2_fmap_r, Forall_Forall2_diag, Forall_fmap, Forall_forall.
    intros i _. apply leer_en_Some. exists buf.
    split_and!; [done| |done].
    eapply forma_posible_menor; [|exact Hforma].
    pose proof (banda_menor ary (Z.to_nat n) i). simpl in *. lia.
  - rewrite <- list_fmap_compose.
    change (datos ∘ mostrar)
      with (λ b : vista, take (vfilas b) (drop (inicio b) buf)).
    rewrite (bandas_concat ary (Z.to_nat n) (Z.to_nat n) buf).
    by rewrite corte_total by lia.
  - apply Forall_fmap, Forall_fmap, Forall_forall. by intros i _.
Qed.

Lemma C4_reensamblado_witness :
  ∃ bandas gs,
    np.array_split vista_cinco 3 (mundo_con (datos cinco))
      = Ok (bandas, mundo_con (datos cinco)) ∧
    Forall2 (vale (mundo_con (datos cinco))) bandas gs ∧
    concat (datos <$> gs) = [[1; 0]; [0; 1]; [1; 1]; [0; 0]; [1; 0]].
Proof.
  destruct (C4_reensamblado (mundo_con (datos cinco)) vista_cinco 3 cinco)
    as (bandas & gs & Hs & Hv & Hc & _); [lia|vm_compute; reflexivity|].
  exists bandas, gs. split_and!; [exact Hs|exact Hv|exact Hc].
Defined.

Lemma escalamiento_debil_spec celdas_por_proceso pasos ps lados w :
  Forall2 (λ p lado, 1 <= p ∧ lado_de (celdas_por_proceso * p) = Ok lado ∧
                     valor.forma_posible lado lado = true)
    ps lados →
  ∃ w',
    escalamiento_debil celdas_por_proceso pasos ps w
      = Ok (duraciones (reloj w) (length ps), w') ∧
    Forall (grilla_construida w w') lados ∧
    salida w' = salida w ++ informes (reloj w) ps lados.
Proof.
  intros H.
  destruct (logra_inv _ _ _
              (para_cada_spec celdas_por_proceso pasos ps lados [] w H))
    as (ts & w' & Hrun & -> & Hs & _ & _ & Hg).
  by exists w'.
Qed.

(** ** The harness *)







(** ** Creating a grid *)

(** C7 (as amended). Creating a game returns for every pair of dimensions
    that are not negative, zero included, of which numpy makes an array:
    each dimension below [2^63] and, when none is 0, their product below
    [2^63].  The grid has that many rows and columns, and its cells are
    independent uniform draws of 0 and 1 in that each cell is a bit of its
    own of the 32-bit outputs of the generator behind [np.random]: cell
    number [k = i * columnas + j] is bit [8 * (k mod 4)] of output [k / 4],
    the call takes the outputs that its cells need, a fourth of their
    number rounded up, and the source is left after them.  Changing that one
    bit of the outputs changes that cell to the other value and no other
    cell, nor what the call leaves of the source; the change is its own
    inverse and keeps the outputs on 32 bits, so that the cells are
    independent and uniform whenever the outputs of the generator are.
    Creating a game raises, a [ValueError], exactly for the other
    dimensions: when one is negative, and when the grid is too large. *)
Theorem C7_crear (w : mundo) (filas columnas pasos procesos : Z) :
  (0 <= filas < 2 ^ 63 ∧ 0 <= columnas < 2 ^ 63 ∧
   (filas = 0 ∨ columnas = 0 ∨ filas * columnas < 2 ^ 63) →
   ∃ self w' g,
     __init__ filas columnas pasos procesos w = Ok (self, w') ∧
     vale w' (grilla self) g ∧
     nfilas g = Z.to_nat filas ∧ ncols g = Z.to_nat columnas ∧
     bien_formada g ∧ binaria g ∧
     (∀ n, azar w' n
           = azar w (n + (Z.to_nat filas * Z.to_nat columnas + 3) / 4)%nat) ∧
     ∀ i j, (i < Z.to_nat filas)%nat → (j < Z.to_nat columnas)%nat →
       celda g i j
       = Z.b2z (Z.testbit
                  (azar w ((i * Z.to_nat columnas + j) / 4)%nat)
                  (8 * Z.of_nat ((i * Z.to_nat columnas + j) mod 4))) ∧
       ∃ self2 w2 g2,
         __init__ filas columnas pasos procesos
           (Mundo (memoria w)
                  (otra_celda (azar w) (i * Z.to_nat columnas + j))
                  (reloj w) (salida w))
         = Ok (self2, w2) ∧
         vale w2 (grilla self2) g2 ∧
         celda g2 i j = 1 - celda g i j ∧
         (∀ i' j', (i' < Z.to_nat filas)%nat → (j' < Z.to_nat columnas)%nat →
            (i', j') ≠ (i, j) → celda g2 i' j' = celda g i' j') ∧
         (∀ n, azar w2 n = azar w' n)) ∧
  (filas < 0 ∨ columnas < 0 ∨ 2 ^ 63 <= filas ∨ 2 ^ 63 <= columnas ∨
   (filas ≠ 0 ∧ columnas ≠ 0 ∧ 2 ^ 63 <= filas * columnas) →
   __init__ filas columnas pasos procesos w = Error ValueError) ∧
  (∀ k n,
     (∀ b, 0 <= b →
        Z.testbit (otra_celda (azar w) k n) b
        = if decide (n = (k / 4)%nat ∧ b = 8 * Z.of_nat (k mod 4))
          then negb (Z.testbit (azar w n) b)
          else Z.testbit (azar w n) b) ∧
     (0 <= azar w n < 2 ^ 32 → 0 <= otra_celda (azar w) k n < 2 ^ 32) ∧
     otra_celda (otra_celda (azar w) k) k n = azar w n).
Proof.
  split_and!.
  - intros Hdim. apply forma_posible_spec in Hdim.
    destruct (logra_inv _ _ _ (init_spec w filas columnas pasos procesos Hdim))
      as (self & w' & Hrun & g & Hg & _ & _ & _ & _ & (HR & HC & Hwf) & Hbin
          & Hcel & Hazar).
    exists self, w', g. split_and!; try done.
    { intros n. by rewrite Hazar. }
    intros i j Hi Hj. split; [by apply Hcel|].
    set (k := (i * Z.to_nat columnas + j)%nat).
    set (w0 := Mundo (memoria w) (otra_celda (azar w) k) (reloj w) (salida w)).
    destruct (logra_inv _ _ _ (init_spec w0 filas columnas pasos procesos Hdim))
      as (self2 & w2 & Hrun2 & g2 & Hg2 & _ & _ & _ & _ & _ & _
          & Hcel2 & Hazar2).
    exists self2, w2, g2. split_and!; try done.
    + rewrite Hcel2, Hcel by done. cbn [azar w0]. apply celda_sorteada_otra.
    + intros i' j' Hi' Hj' Hne. rewrite Hcel2, Hcel by done. cbn [azar w0].
      by apply celda_sorteada_otra_ne, numero_de_celda.
    + intros n. rewrite Hazar2, Hazar. cbn [azar w0].
      apply otra_celda_resto.
      assert (k < Z.to_nat filas * Z.to_nat columnas)%nat by (unfold k; nia).
      pose proof (Nat.div_mod_eq k 4).
      pose proof (Nat.mod_upper_bound k 4 ltac:(lia)).
      pose proof (Nat.div_mod_eq (Z.to_nat filas * Z.to_nat columnas + 3) 4).
      pose proof (Nat.mod_upper_bound
                    (Z.to_nat filas * Z.to_nat columnas + 3) 4 ltac:(lia)).
      lia.
  - intros Hdim. apply init_error.
    destruct (valor.forma_posible filas columnas) eqn:Hf; [|done].
    apply forma_posible_spec in Hf. lia.
  - intros k n. split_and!.
    + intros b Hb. by apply otra_celda_bit.
    + apply otra_celda_rango.
    + apply otra_celda_otra_celda.
Qed.

Lemma C7_crear_witness :
  (∃ self w' g,
     __init__ 2 3 1 1 mundo0 = Ok (self, w') ∧
     vale w' (grilla self) g ∧ nfilas g = 2%nat ∧ ncols g = 3%nat ∧
     binaria g ∧ azar w' 0%nat = 515) ∧
  __init__ (-1) 3 1 1 mundo0 = Error ValueError ∧
  __init__ (2 ^ 32) (2 ^ 32) 1 1 mundo0 = Error ValueError.
Proof.
  destruct (C7_crear mundo0 2 3 1 1) as (Hpos & _ & _).
  destruct (C7_crear mundo0 (-1) 3 1 1) as (_ & Hneg & _).
  destruct (C7_crear mundo0 (2 ^ 32) (2 ^ 32) 1 1) as (_ & Hgrande & _).
  refine (conj _ (conj _ _)).
  - destruct Hpos as (self & w' & g & Hrun & Hg & HR & HC & _ & Hbin & Haz & _);
      [lia|].
    exists self, w', g.
    refine (conj Hrun (conj Hg (conj HR (conj HC (conj Hbin _))))).
    exact (Haz 0%nat).
  - apply Hneg. lia.
  - apply Hgrande. lia.
Defined.

(** C7, as it was stated, fails twice: a grid of 0 rows is created, no
    error, and a grid of [2^32] rows and [2^32] columns, two positive
    dimensions, is not. *)
Lemma C7_contraejemplo :
  (∃ w',
     __init__ 0 5 1 1 mundo0 = Ok (Juego 0 5 1 1 (Vista 0 0 0 5), w') ∧
     vale w' (Vista 0 0 0 5) (Ndarray 5 [])) ∧
  __init__ 4294967296 4294967296 1 1 mundo0 = Error ValueError.
Proof.
  split; [|by vm_compute].
  exists (Mundo {[ 0%nat := [] ]} (λ k, azar mundo0 (k + (0 * 5 + 3) / 4)%nat)
            (reloj mundo0) []).
  split; vm_compute; reflexivity.
Qed.

(** ** The configuration *)




(** ** The worker *)

(** C9. The worker is deterministic and isolated: run in any two worlds, on
    any two sub-grids that show the same array, for the same number of
    generations, it returns in both, and both results show the same array,
    that many generations of the array the sub-grid shows.  Each of these
    generations keeps the rows and columns of the sub-grid, and, for a
    sub-grid of 0/1 cells, follows the rule with the neighbour count wrapped
    modulo the sub-grid's own rows and columns: what lies around the
    sub-grid in its buffer, the random source and the rest of the world have
    no part in the result. *)
Theorem C9_worker_determinista (w1 w2 : mundo) (sg1 sg2 : vista)
    (g : ndarray) (pasos : Z) :
  vale w1 sg1 g → vale w2 sg2 g →
  ∃ r1 w1' r2 w2' g',
    worker sg1 pasos w1 = Ok (r1, w1') ∧
    worker sg2 pasos w2 = Ok (r2, w2') ∧
    vale w1' r1 g' ∧ vale w2' r2 g' ∧
    g' = Nat.iter (Z.to_nat pasos) generacion g ∧
    (bien_formada g → binaria g →
     ∀ k, let gk := Nat.iter k generacion g in
       nfilas gk = nfilas g ∧ ncols gk = ncols g ∧
       ∀ i j, (i < nfilas g)%nat → (j < ncols g)%nat →
         celda (generacion gk) i j = 1 ↔
           vecinos_toroidales gk i j = 3 ∨
           (celda gk i j = 1 ∧ vecinos_toroidales gk i j = 2)).
Proof.
  intros H1 H2.
  destruct (logra_inv _ _ _ (worker_spec w1 sg1 pasos g H1))
    as (r1 & w1' & Hrun1 & Hr1 & _).
  destruct (logra_inv _ _ _ (worker_spec w2 sg2 pasos g H2))
    as (r2 & w2' & Hrun2 & Hr2 & _).
  exists r1, w1', r2, w2', (Nat.iter (Z.to_nat pasos) generacion g).
  split_and!; try done.
  intros Hwf Hbin k gk.
  destruct (de_forma_generaciones (nfilas g) (ncols g) k g) as (HR & HC & Hwf');
    [done|].
  split_and!; [done..|].
  intros i j Hi Hj.
  apply generacion_regla; [done|by apply binaria_generaciones|..]; unfold gk; lia.
Qed.

(** Two views of two buffers: the second band of [cinco] in its grid, and
    the same two rows alone. *)
Lemma C9_worker_determinista_witness :
  ∃ r1 w1' r2 w2' g',
    worker (Vista 0 2 2 2) 3 (mundo_con (datos cinco)) = Ok (r1, w1') ∧
    worker (Vista 0 0 2 2) 3 (mundo_con [[1; 1]; [0; 0]]) = Ok (r2, w2') ∧
    vale w1' r1 g' ∧ vale w2' r2 g'.
Proof.
  destruct (C9_worker_determinista
              (mundo_con (datos cinco)) (mundo_con [[1; 1]; [0; 0]])
              (Vista 0 2 2 2) (Vista 0 0 2 2)
              (Ndarray 2 [[1; 1]; [0; 0]]) 3)
    as (r1 & w1' & r2 & w2' & g' & Hrun1 & Hrun2 & Hr1 & Hr2 & _);
    [vm_compute; reflexivity..|].
  exists r1, w1', r2, w2', g'.
  split_and!; [exact Hrun1|exact Hrun2|exact Hr1|exact Hr2].
Defined.

(** C10. The warm-up leaves every sub-grid as the partition made it: the
    worker, run on the first band for one generation, returns, and in the
    world it leaves every buffer of the store is what it was (the worker
    writes only buffers of its own), so every band, and the grid itself,
    shows the same array as before. *)
Theorem C10_calentamiento (w : mundo) (ary : vista) (n : Z) (g : ndarray) :
  1 <= n → vale w ary g →
  ∃ subgrillas sg0 r w',
    np.array_split ary n w = Ok (subgrillas, w) ∧
    primera subgrillas w = Ok (sg0, w) ∧
    worker sg0 1 w = Ok (r, w') ∧
    memoria w ⊆ memoria w' ∧
    (∀ sg, sg ∈ subgrillas →
       is_Some (leer_en (memoria w) sg) ∧
       leer_en (memoria w') sg = leer_en (memoria w) sg) ∧
    vale w' ary g.
Proof.
  intros Hn Hg.
  assert (Hleg : ∀ i, legible w (banda ary (Z.to_nat n) i)).
  { intros i. apply legible_banda. by exists g. }
  destruct (Hleg 0%nat) as [g0 Hg0].
  destruct (logra_inv _ _ _ (worker_spec w _ 1 g0 Hg0))
    as (r & w' & Hrun & _ & Hcons).
  exists (banda ary (Z.to_nat n) <$> seq 0 (Z.to_nat n)),
         (banda ary (Z.to_nat n) 0), r, w'.
  split_and!.
  - by apply array_split_ok.
  - destruct (logra_inv _ _ _ (primera_bandas ary (Z.to_nat n) w ltac:(lia)))
      as (sg & w0 & Hp & -> & ->). exact Hp.
  - exact Hrun.
  - apply Hcons.
  - intros sg [i Hi]%list_elem_of_lookup.
    apply bandas_lookup in Hi as [_ ->].
    destruct (Hleg i) as [a Ha]. split; [by exists a|].
    pose proof (vale_conserva _ _ _ _ Hcons Ha) as Ha'.
    unfold vale in *. by rewrite Ha, Ha'.
  - by eapply vale_conserva.
Qed.

Lemma C10_calentamiento_witness :
  ∃ subgrillas sg0 r w',
    np.array_split vista_cinco 2 (mundo_con (datos cinco))
      = Ok (subgrillas, mundo_con (datos cinco)) ∧
    worker sg0 1 (mundo_con (datos cinco)) = Ok (r, w') ∧
    (∀ sg, sg ∈ subgrillas →
       leer_en (memoria w') sg = leer_en (memoria (mundo_con (datos cinco))) sg) ∧
    vale w' vista_cinco cinco.
Proof.
  destruct (C10_calentamiento (mundo_con (datos cinco)) vista_cinco 2 cinco)
    as (sgs & sg0 & r & w' & Hs & _ & Hrun & _ & Hsgs & Hg);
    [lia|vm_compute; reflexivity|].
  exists sgs, sg0, r, w'. split_and!; [exact Hs|exact Hrun| |exact Hg].
  intros sg Hsg. exact (proj2 (Hsgs sg Hsg)).
Defined.

(** * Further properties of the program *)

(** ** contar_vecinos, step and run *)

Lemma vecinos_toroidales_binaria g i j :
  binaria g → 0 <= vecinos_toroidales g i j <= 8.
Proof.
  intros Hbin.
  assert (Hc : ∀ a b, 0 <= celda g a b <= 1).
  { intros a b. destruct (binaria_celda g a b Hbin) as [-> | ->]; lia. }
  unfold vecinos_toroidales.
  pose proof (Hc (envuelve (nfilas g) i (-1)) (envuelve (ncols g) j (-1))).
  pose proof (Hc (envuelve (nfilas g) i (-1)) (envuelve (ncols g) j 0)).
  pose proof (Hc (envuelve (nfilas g) i (-1)) (envuelve (ncols g) j 1)).
  pose proof (Hc (envuelve (nfilas g) i 0) (envuelve (ncols g) j (-1))).
  pose proof (Hc (envuelve (nfilas g) i 0) (envuelve (ncols g) j 1)).
  pose proof (Hc (envuelve (nfilas g) i 1) (envuelve (ncols g) j (-1))).
  pose proof (Hc (envuelve (nfilas g) i 1) (envuelve (ncols g) j 0)).
  pose proof (Hc (envuelve (nfilas g) i 1) (envuelve (ncols g) j 1)).
  lia.
Qed.

(** X1. For every grid of bytes, [contar_vecinos] returns a new array of the
    rows and columns of the grid; its cell [(i, j)] is the sum of the 8
    neighbours of [(i, j)] on the torus, wrapped around a byte (the sum is
    taken in uint8), and for a grid of 0/1 cells it is that sum itself,
    between 0 and 8.  The grid is still there, unchanged, and the random
    source, the clock and the output are untouched. *)
Theorem X1_contar_vecinos (w : mundo) (subgrilla : vista) (g : ndarray) :
  vale w subgrilla g → bien_formada g → de_bytes g →
  ∃ v w' n,
    contar_vecinos subgrilla w = Ok (v, w') ∧
    vale w' v n ∧
    nfilas n = nfilas g ∧ ncols n = ncols g ∧ bien_formada n ∧
    (∀ i j, (i < nfilas g)%nat → (j < ncols g)%nat →
       celda n i j = vecinos_toroidales g i j mod 256 ∧
       (binaria g →
        celda n i j = vecinos_toroidales g i j ∧ 0 <= celda n i j <= 8)) ∧
    memoria w !! base v = None ∧
    vale w' subgrilla g ∧
    azar w' = azar w ∧ reloj w' = reloj w ∧ salida w' = salida w.
Proof.
  intros Hg Hwf _.
  destruct (logra_inv _ _ _ (contar_vecinos_aloja w subgrilla g Hg))
    as (v & w' & Hrun & Hv & Hw & Hl & _).
  assert (Hforma : de_forma (nfilas g) (ncols g) g) by done.
  pose proof (de_forma_vecinos_de _ _ _ Hforma) as (HR & HC & Hwf').
  exists v, w', (vecinos_de g).
  split_and!; try done.
  - intros i j Hi Hj. split.
    + apply celda_de_opt. by apply (celda_vecinos_de_mod (nfilas g) (ncols g)).
    + intros Hbin.
      assert (Hcel : celda (vecinos_de g) i j = vecinos_toroidales g i j).
      { apply celda_de_opt. by apply (celda_vecinos_de (nfilas g) (ncols g)). }
      split; [done|]. rewrite Hcel. by apply vecinos_toroidales_binaria.
  - by eapply vale_solo_aloja.
  - apply Hw.
  - apply Hw.
  - apply Hw.
Qed.

Lemma X1_contar_vecinos_witness :
  ∃ v w' n,
    contar_vecinos (Vista 0 0 3 3) (mundo_con (datos desbordada)) = Ok (v, w') ∧
    vale w' v n ∧ celda n 1 1 = 3.
Proof.
  assert (Hc : vecinos_toroidales desbordada 1 1 mod 256 = 3)
    by (vm_compute; reflexivity).
  assert (Hi : (1 < nfilas desbordada)%nat) by (vm_compute; lia).
  assert (Hj : (1 < ncols desbordada)%nat) by (vm_compute; lia).
  assert (Hv : vale (mundo_con (datos desbordada)) (Vista 0 0 3 3) desbordada)
    by (vm_compute; reflexivity).
  assert (Hwf : bien_formada desbordada) by (repeat constructor).
  assert (Hb : de_bytes desbordada) by (repeat (constructor; try lia)).
  destruct (X1_contar_vecinos _ _ _ Hv Hwf Hb)
    as (v & w' & n & Hrun & Hn & _ & _ & _ & Hcel & _).
  exists v, w', n. refine (conj Hrun (conj Hn _)).
  destruct (Hcel 1%nat 1%nat Hi Hj) as [H _].
  exact (eq_trans H Hc).
Defined.

(** X2. One step of a game on any grid of bytes returns, and its new grid
    has the rows and columns of the old one and only cells 0 and 1, also
    where the old grid had other bytes.  A cell is 1 exactly when the
    neighbour sum of the old grid, wrapped around a byte, is 3, or the old
    cell is 1 and that wrapped sum is 2: a byte other than 1 counts as dead
    for survival, and adds its value to the sums of its neighbours. *)
Theorem X2_step_bytes (w : mundo) (self : JuegoDeLaVida) (g : ndarray) :
  vale w (grilla self) g → bien_formada g → de_bytes g →
  ∃ self' w' g',
    step self w = Ok (self', w') ∧
    vale w' (grilla self') g' ∧
    nfilas g' = nfilas g ∧ ncols g' = ncols g ∧
    bien_formada g' ∧ binaria g' ∧
    (∀ i j, (i < nfilas g)%nat → (j < ncols g)%nat →
       celda g' i j = 1 ↔
         vecinos_toroidales g i j mod 256 = 3 ∨
         (celda g i j = 1 ∧ vecinos_toroidales g i j mod 256 = 2)).
Proof.
  intros Hg Hwf _.
  destruct (logra_inv _ _ _ (step_spec w self g Hg))
    as (self' & w' & Hrun & Hg' & _).
  assert (Hforma : de_forma (nfilas g) (ncols g) g) by done.
  pose proof (de_forma_generacion _ _ _ Hforma) as (HR & HC & Hwf').
  exists self', w', (generacion g).
  split_and!; try done.
  - apply binaria_generacion.
  - intros i j Hi Hj.
    rewrite (celda_generacion_mod (nfilas g) (ncols g)) by done.
    apply regla_celda_1.
Qed.

Lemma X2_step_bytes_witness :
  ∃ self' w' g',
    step juego_lleno (mundo_con (datos desbordada)) = Ok (self', w') ∧
    vale w' (grilla self') g' ∧ binaria g' ∧ celda g' 1 1 = 1.
Proof.
  assert (Hc : vecinos_toroidales desbordada 1 1 mod 256 = 3)
    by (vm_compute; reflexivity).
  assert (Hi : (1 < nfilas desbordada)%nat) by (vm_compute; lia).
  assert (Hj : (1 < ncols desbordada)%nat) by (vm_compute; lia).
  assert (Hv : vale (mundo_con (datos desbordada)) (grilla juego_lleno)
                 desbordada) by (vm_compute; reflexivity).
  assert (Hwf : bien_formada desbordada) by (repeat constructor).
  assert (Hb : de_bytes desbordada) by (repeat (constructor; try lia)).
  destruct (X2_step_bytes _ _ _ Hv Hwf Hb)
    as (self' & w' & g' & Hrun & Hg' & _ & _ & _ & Hbin & Hcel).
  exists self', w', g'. refine (conj Hrun (conj Hg' (conj Hbin _))).
  apply (Hcel 1%nat 1%nat Hi Hj). left. exact Hc.
Defined.

(** X3. [run] returns for every game whose grid the store holds: the game
    keeps its fields but the grid, and the grid is the generation number
    [pasos] of the old one.  The old grid is still there, unchanged, and the
    random source, the clock and the output are untouched.  With [pasos] of 0
    or less nothing happens at all: the same game in the same world; with
    [pasos] of 1 or more the grid is an array that was not in the store. *)
Theorem X3_run (w : mundo) (self : JuegoDeLaVida) (g : ndarray) :
  vale w (grilla self) g →
  ∃ self' w',
    run self w = Ok (self', w') ∧
    vale w' (grilla self') (Nat.iter (Z.to_nat (pasos self)) generacion g) ∧
    self' = con_grilla self (grilla self') ∧
    vale w' (grilla self) g ∧
    azar w' = azar w ∧ reloj w' = reloj w ∧ salida w' = salida w ∧
    (pasos self <= 0 → self' = self ∧ w' = w) ∧
    (1 <= pasos self → memoria w !! base (grilla self') = None).
Proof.
  intros Hg.
  destruct (logra_inv _ _ _ (pasos_aloja (Z.to_nat (pasos self)) w self g Hg))
    as (self' & w' & Hrun & Hg' & Hw & Hself & H0 & H1).
  exists self', w'.
  split_and!; try done.
  - by eapply vale_solo_aloja.
  - apply Hw.
  - apply Hw.
  - apply Hw.
  - intros Hp. apply H0. lia.
  - intros Hp. apply H1. lia.
Qed.

Lemma X3_run_witness :
  ∃ self' w',
    run juego_lleno (mundo_con (datos llena)) = Ok (self', w') ∧
    vale w' (grilla self') (Ndarray 3 [[0; 0; 0]; [0; 0; 0]; [0; 0; 0]]) ∧
    vale w' (grilla juego_lleno) llena ∧
    filas self' = 3 ∧ pasos self' = 1.
Proof.
  assert (Hv : vale (mundo_con (datos llena)) (grilla juego_lleno) llena)
    by (vm_compute; reflexivity).
  assert (E : Nat.iter (Z.to_nat (pasos juego_lleno)) generacion llena
              = Ndarray 3 [[0; 0; 0]; [0; 0; 0]; [0; 0; 0]])
    by (vm_compute; reflexivity).
  destruct (X3_run _ _ _ Hv)
    as (self' & w' & Hrun & Hg' & Hself & Hold & _).
  exists self', w'.
  refine (conj Hrun (conj (eq_ind _ (vale w' (grilla self')) Hg' _ E)
            (conj Hold _))).
  clear Hrun Hg' Hold. rewrite Hself. split; reflexivity.
Defined.

(** ** worker *)

(** X4. The worker and [run] compute the same array: on the grid of a game,
    for the [pasos] of the game, both return and their results show one
    array.  They differ in what they do to the world: the worker first
    builds a game of its own, whose random grid it drops, and so takes from
    the generator the outputs that a grid of the sub-grid's shape needs, a
    fourth of the number of its cells, rounded up; [run] leaves the random
    source alone.  Neither touches the clock or the output. *)
Theorem X4_worker_y_run (w : mundo) (self : JuegoDeLaVida) (g : ndarray) :
  vale w (grilla self) g →
  ∃ r w1 self' w2,
    worker (grilla self) (pasos self) w = Ok (r, w1) ∧
    run self w = Ok (self', w2) ∧
    (∃ g', vale w1 r g' ∧ vale w2 (grilla self') g') ∧
    (∀ k, azar w1 k
          = azar w (k + (vfilas (grilla self) * vcols (grilla self) + 3) / 4)%nat) ∧
    azar w2 = azar w ∧
    reloj w1 = reloj w ∧ salida w1 = salida w ∧
    reloj w2 = reloj w ∧ salida w2 = salida w.
Proof.
  intros Hg.
  destruct (logra_inv _ _ _ (worker_aloja w (grilla self) (pasos self) g Hg))
    as (r & w1 & Hrun1 & Hr & Hw1 & Haz & _).
  destruct (logra_inv _ _ _ (run_spec w self g Hg))
    as (self' & w2 & Hrun2 & Hg' & Hw2).
  exists r, w1, self', w2.
  split_and!; try done.
  - by exists (Nat.iter (Z.to_nat (pasos self)) generacion g).
  - apply Hw2.
  - apply Hw1.
  - apply Hw1.
  - apply Hw2.
  - apply Hw2.
Qed.

Lemma X4_worker_y_run_witness :
  ∃ r w1 self' w2,
    worker (grilla juego_lleno) (pasos juego_lleno) (mundo_con (datos llena))
      = Ok (r, w1) ∧
    run juego_lleno (mundo_con (datos llena)) = Ok (self', w2) ∧
    (∃ g', vale w1 r g' ∧ vale w2 (grilla self') g') ∧
    azar w1 0%nat = 772 ∧ azar w2 0%nat = 1.
Proof.
  assert (Hv : vale (mundo_con (datos llena)) (grilla juego_lleno) llena)
    by (vm_compute; reflexivity).
  destruct (X4_worker_y_run _ _ _ Hv)
    as (r & w1 & self' & w2 & Hrun1 & Hrun2 & Hg' & Haz1 & Haz2 & _).
  exists r, w1, self', w2.
  refine (conj Hrun1 (conj Hrun2 (conj Hg' (conj _ _)))).
  - exact (eq_trans (Haz1 0%nat) eq_refl).
  - exact (eq_trans (f_equal (λ f, f 0%nat) Haz2) eq_refl).
Defined.

(** X5. What the worker returns is its own argument when [pasos] is 0 or
    less: the very array object it was given, not a copy, and the worker
    returns it without reading it; it only takes its shape, which is the
    shape of an array, for the grid of its game (for any other shape
    creating that grid raises a [ValueError]).  When [pasos] is 1 or more
    the result is an array over a buffer that was not in the store, so it
    shares no cell with the sub-grid or with anything the caller holds. *)
Theorem X5_worker_alias (w : mundo) (subgrilla : vista) (pasos : Z)
    (g : ndarray) :
  (pasos <= 0 →
   valor.forma_posible (Z.of_nat (vfilas subgrilla))
                       (Z.of_nat (vcols subgrilla)) = true →
   ∃ w', worker subgrilla pasos w = Ok (subgrilla, w') ∧
         memoria w ⊆ memoria w') ∧
  (valor.forma_posible (Z.of_nat (vfilas subgrilla))
                       (Z.of_nat (vcols subgrilla)) = false →
   worker subgrilla pasos w = Error ValueError) ∧
  (1 <= pasos → vale w subgrilla g →
   ∃ r w', worker subgrilla pasos w = Ok (r, w') ∧
           memoria w !! base r = None ∧ base r ≠ base subgrilla ∧
           inicio r = 0%nat ∧ vale w' subgrilla g).
Proof.
  split_and!.
  - intros Hp Hforma.
    destruct (logra_inv _ _ _ (worker_cero w subgrilla pasos Hforma Hp))
      as (r & w' & Hrun & -> & Hw & _).
    exists w'. split; [done|apply Hw].
  - intros Hforma. unfold worker. apply bind_error. by apply init_error.
  - intros Hp Hg.
    destruct (logra_inv _ _ _ (worker_aloja w subgrilla pasos g Hg))
      as (r & w' & Hrun & _ & Hw & _ & _ & H1).
    destruct (H1 Hp) as [Hl Hi].
    exists r, w'. split_and!; [done..| |done|by eapply vale_conserva].
    intros Hb. apply leer_en_Some in Hg as (buf & Hbuf & _).
    rewrite <- Hb, Hl in Hbuf. done.
Qed.

Lemma X5_worker_alias_witness :
  (∃ w', worker (Vista 0 1 2 4) 0 (mundo_con (datos bloque))
         = Ok (Vista 0 1 2 4, w')) ∧
  (∃ r w', worker (Vista 0 1 2 4) 1 (mundo_con (datos bloque)) = Ok (r, w') ∧
           base r ≠ 0%nat).
Proof.
  assert (H0 : 0 <= 0) by lia.
  assert (H1 : 1 <= 1) by lia.
  assert (Hv : vale (mundo_con (datos bloque)) (Vista 0 1 2 4)
                 (Ndarray 4 [[0; 1; 1; 0]; [0; 1; 1; 0]]))
    by (vm_compute; reflexivity).
  split.
  - destruct (X5_worker_alias (mundo_con (datos bloque)) (Vista 0 1 2 4) 0
                (Ndarray 4 [])) as [H _].
    destruct (H H0 eq_refl) as (w' & Hrun & _). exists w'. exact Hrun.
  - destruct (X5_worker_alias (mundo_con (datos bloque)) (Vista 0 1 2 4) 1
                (Ndarray 4 [[0; 1; 1; 0]; [0; 1; 1; 0]])) as (_ & _ & H).
    destruct (H H1 Hv) as (r & w' & Hrun & _ & Hb & _).
    exists r, w'. exact (conj Hrun Hb).
Defined.

(** X6. A sub-grid whose cells are all the same byte has no living cell
    after one generation or more, whatever its rows and columns (none
    included): the empty board stays empty, and the full board dies at once,
    since on the torus every cell then has 8 living neighbours. *)
Theorem X6_grilla_uniforme (w : mundo) (subgrilla : vista) (R C : nat)
    (x pasos : Z) :
  vale w subgrilla (constante R C x) → 0 <= x < 256 → 1 <= pasos →
  ∃ r w',
    worker subgrilla pasos w = Ok (r, w') ∧ vale w' r (constante R C 0).
Proof.
  intros Hg _ Hp.
  destruct (logra_inv _ _ _ (worker_spec w subgrilla pasos _ Hg))
    as (r & w' & Hrun & Hr & _).
  exists r, w'. split; [done|].
  by rewrite generaciones_constante in Hr by lia.
Qed.

Lemma X6_grilla_uniforme_witness :
  ∃ r w',
    worker (Vista 0 0 3 3) 2 (mundo_con (datos llena)) = Ok (r, w') ∧
    vale w' r (Ndarray 3 [[0; 0; 0]; [0; 0; 0]; [0; 0; 0]]).
Proof.
  assert (Hv : vale (mundo_con (datos llena)) (Vista 0 0 3 3) (constante 3 3 1))
    by (vm_compute; reflexivity).
  assert (Hx : 0 <= 1 < 256) by lia.
  assert (Hp : 1 <= 2) by lia.
  destruct (X6_grilla_uniforme _ _ _ _ _ _ Hv Hx Hp) as (r & w' & Hrun & Hr).
  exists r, w'. exact (conj Hrun Hr).
Defined.

(** X7. The rule has no origin: shifting a grid along an axis with
    [np.roll], by any number of places, and then running the worker gives
    the result of the worker on the grid, shifted the same way. *)
Theorem X7_traslacion (w1 w2 : mundo) (sg1 sg2 : vista) (g : ndarray)
    (shift : Z) (axis : eje) (pasos : Z) :
  vale w1 sg1 g → vale w2 sg2 (valor.roll g shift axis) → bien_formada g →
  ∃ r1 w1' r2 w2' g',
    worker sg1 pasos w1 = Ok (r1, w1') ∧
    worker sg2 pasos w2 = Ok (r2, w2') ∧
    vale w1' r1 g' ∧ vale w2' r2 (valor.roll g' shift axis).
Proof.
  intros Hg1 Hg2 Hwf.
  destruct (logra_inv _ _ _ (worker_spec w1 sg1 pasos _ Hg1))
    as (r1 & w1' & Hrun1 & Hr1 & _).
  destruct (logra_inv _ _ _ (worker_spec w2 sg2 pasos _ Hg2))
    as (r2 & w2' & Hrun2 & Hr2 & _).
  exists r1, w1', r2, w2', (Nat.iter (Z.to_nat pasos) generacion g).
  split_and!; [done..|].
  by rewrite (generaciones_roll (nfilas g) (ncols g)) in Hr2.
Qed.

Lemma X7_traslacion_witness :
  ∃ r1 w1' r2 w2' g',
    worker vista_cinco 3 (mundo_con (datos cinco)) = Ok (r1, w1') ∧
    worker vista_cinco 3
      (mundo_con [[0; 0]; [1; 0]; [1; 0]; [0; 1]; [1; 1]]) = Ok (r2, w2') ∧
    vale w1' r1 g' ∧ vale w2' r2 (valor.roll g' 2 Eje0).
Proof.
  assert (Hv1 : vale (mundo_con (datos cinco)) vista_cinco cinco)
    by (vm_compute; reflexivity).
  assert (Hv2 : vale (mundo_con [[0; 0]; [1; 0]; [1; 0]; [0; 1]; [1; 1]])
                  vista_cinco (valor.roll cinco 2 Eje0))
    by (vm_compute; reflexivity).
  assert (Hwf : bien_formada cinco) by (repeat constructor).
  destruct (X7_traslacion _ _ _ _ _ _ _ 3 Hv1 Hv2 Hwf)
    as (r1 & w1' & r2 & w2' & g' & Hrun1 & Hrun2 & Hr1 & Hr2).
  exists r1, w1', r2, w2', g'.
  exact (conj Hrun1 (conj Hrun2 (conj Hr1 Hr2))).
Defined.

(** X8. A run can be resumed: the worker run for [m] generations, and then
    on its result for [n] more, shows the array of the worker run for
    [m + n] generations in one go. *)
Theorem X8_worker_reanudado (w : mundo) (subgrilla : vista) (g : ndarray)
    (m n : Z) :
  vale w subgrilla g → 0 <= m → 0 <= n →
  ∃ r1 w1 r2 w2 r w' g',
    worker subgrilla m w = Ok (r1, w1) ∧
    worker r1 n w1 = Ok (r2, w2) ∧
    worker subgrilla (m + n) w = Ok (r, w') ∧
    vale w2 r2 g' ∧ vale w' r g'.
Proof.
  intros Hg Hm Hn.
  destruct (logra_inv _ _ _ (worker_spec w subgrilla m _ Hg))
    as (r1 & w1 & Hrun1 & Hr1 & _).
  destruct (logra_inv _ _ _ (worker_spec w1 r1 n _ Hr1))
    as (r2 & w2 & Hrun2 & Hr2 & _).
  destruct (logra_inv _ _ _ (worker_spec w subgrilla (m + n) _ Hg))
    as (r & w' & Hrun & Hr & _).
  exists r1, w1, r2, w2, r, w',
    (Nat.iter (Z.to_nat n) generacion (Nat.iter (Z.to_nat m) generacion g)).
  split_and!; [done..|].
  by rewrite Z2Nat.inj_add, Nat.add_comm, Nat.iter_add in Hr by done.
Qed.

Lemma X8_worker_reanudado_witness :
  ∃ r1 w1 r2 w2 r w' g',
    worker vista_cinco 1 (mundo_con (datos cinco)) = Ok (r1, w1) ∧
    worker r1 2 w1 = Ok (r2, w2) ∧
    worker vista_cinco (1 + 2) (mundo_con (datos cinco)) = Ok (r, w') ∧
    vale w2 r2 g' ∧ vale w' r g'.
Proof.
  assert (Hv : vale (mundo_con (datos cinco)) vista_cinco cinco)
    by (vm_compute; reflexivity).
  assert (Hm : 0 <= 1) by lia.
  assert (Hn : 0 <= 2) by lia.
  exact (X8_worker_reanudado _ _ _ 1 2 Hv Hm Hn).
Defined.

(** ** np.array_split and the pool *)



(** X10. The pool returns one result for every sub-grid, in the order of
    the arguments: result number [i] shows generation [pasos] of what
    sub-grid number [i] shows.  Every result is an array that was not in the
    store; the sub-grids are still what they were; and the parent's random
    source, clock and output are untouched, the draws of the workers being
    made in the children. *)
Theorem X10_starmap_en_orden (w : mundo) (subgrillas : list vista)
    (gs : list ndarray) (pasos : Z) :
  Forall2 (vale w) subgrillas gs →
  ∃ rs w',
    starmap_worker ((λ sg, (sg, pasos)) <$> subgrillas) w = Ok (rs, w') ∧
    Forall2 (vale w') rs (Nat.iter (Z.to_nat pasos) generacion <$> gs) ∧
    Forall (λ r, memoria w !! base r = None) rs ∧
    Forall2 (vale w') subgrillas gs ∧
    azar w' = azar w ∧ reloj w' = reloj w ∧ salida w' = salida w.
Proof.
  intros Hgs.
  destruct (logra_inv _ _ _ (starmap_worker_vale w pasos subgrillas gs Hgs))
    as (rs & w' & Hrun & Hrs & Hw & Hl).
  exists rs, w'. split_and!; try done.
  - eapply Forall2_impl; [exact Hgs|]. intros v a. by apply vale_solo_aloja.
  - apply Hw.
  - apply Hw.
  - apply Hw.
Qed.

Lemma X10_starmap_en_orden_witness :
  ∃ rs w',
    starmap_worker [(Vista 0 0 3 2, 1); (Vista 0 3 2 2, 1)]
      (mundo_con (datos cinco)) = Ok (rs, w') ∧
    Forall2 (vale w') rs
      [generacion (Ndarray 2 [[1; 0]; [0; 1]; [1; 1]]);
       generacion (Ndarray 2 [[0; 0]; [1; 0]])] ∧
    azar w' = azar (mundo_con (datos cinco)).
Proof.
  assert (Hv : Forall2 (vale (mundo_con (datos cinco)))
                 [Vista 0 0 3 2; Vista 0 3 2 2]
                 [Ndarray 2 [[1; 0]; [0; 1]; [1; 1]];
                  Ndarray 2 [[0; 0]; [1; 0]]]).
  { repeat constructor; vm_compute; reflexivity. }
  destruct (X10_starmap_en_orden _ _ _ 1 Hv)
    as (rs & w' & Hrun & Hrs & _ & _ & Haz & _).
  exists rs, w'. exact (conj Hrun (conj Hrs Haz)).
Defined.

(** X11. With one process the harness computes the true evolution: the only
    band of [np.array_split(grilla, 1)] is the grid itself, and the pool
    returns one array, generation [pasos] of the whole grid on its torus. *)
Theorem X11_un_proceso (w : mundo) (ary : vista) (g : ndarray) (pasos : Z) :
  vale w ary g →
  ∃ r w',
    np.array_split ary 1 w = Ok ([ary], w) ∧
    starmap_worker ((λ sg, (sg, pasos)) <$> [ary]) w = Ok ([r], w') ∧
    vale w' r (Nat.iter (Z.to_nat pasos) generacion g).
Proof.
  intros Hg.
  assert (Hgs : Forall2 (vale w) [ary] [g]) by (by repeat constructor).
  destruct (logra_inv _ _ _ (starmap_worker_vale w pasos [ary] [g] Hgs))
    as (rs & w' & Hrun & Hrs & _).
  apply Forall2_cons_inv_r in Hrs as (r & rs' & Hr & Hnil & ->).
  apply Forall2_nil_inv_r in Hnil as ->.
  exists r, w'. split_and!; [|done..].
  rewrite array_split_ok by lia. simpl. by rewrite banda_unica.
Qed.

Lemma X11_un_proceso_witness :
  ∃ r w',
    np.array_split (Vista 0 0 4 4) 1 (mundo_con (datos bloque))
      = Ok ([Vista 0 0 4 4], mundo_con (datos bloque)) ∧
    starmap_worker [(Vista 0 0 4 4, 3)] (mundo_con (datos bloque))
      = Ok ([r], w') ∧
    vale w' r bloque.
Proof.
  assert (Hv : vale (mundo_con (datos bloque)) (Vista 0 0 4 4) bloque)
    by (vm_compute; reflexivity).
  assert (E : Nat.iter (Z.to_nat 3) generacion bloque = bloque)
    by (vm_compute; reflexivity).
  destruct (X11_un_proceso _ _ _ 3 Hv) as (r & w' & Hsplit & Hrun & Hr).
  exists r, w'.
  exact (conj Hsplit (conj Hrun (eq_ind _ (vale w' r) Hr _ E))).
Defined.



(** ** escalamiento_debil *)





(** X15. The program as it is configured (250000 cells per worker, 50
    generations, 1, 2, 4 and 8 workers) runs to its end whatever the random
    source and the clock: it builds grids of side 500, 707, 1000 and 1414,
    prints the worker count and the side of each with its time, and the
    samples it writes pair every worker count with the time of its own
    run. *)
Theorem X15_programa (w : mundo) :
  ∃ w',
    escalamiento_debil 250000 50 [1; 2; 4; 8] w
      = Ok (duraciones (reloj w) 4, w') ∧
    Forall (grilla_construida w w') [500; 707; 1000; 1414] ∧
    salida w' = salida w ++
      [Informe 1 500; Tiempo (reloj w 1%nat - reloj w 0%nat);
       Informe 2 707; Tiempo (reloj w 3%nat - reloj w 2%nat);
       Informe 4 1000; Tiempo (reloj w 5%nat - reloj w 4%nat);
       Informe 8 1414; Tiempo (reloj w 7%nat - reloj w 6%nat)] ∧
    muestras [1; 2; 4; 8] (duraciones (reloj w) 4)
    = [(1, (reloj w 1%nat - reloj w 0%nat)%Q);
       (2, (reloj w 3%nat - reloj w 2%nat)%Q);
       (4, (reloj w 5%nat - reloj w 4%nat)%Q);
       (8, (reloj w 7%nat - reloj w 6%nat)%Q)].
Proof.
  destruct (escalamiento_debil_spec 250000 50 [1; 2; 4; 8]
              [500; 707; 1000; 1414] w) as (w' & Hrun & Hg & Hs).
  { repeat constructor; try lia; vm_compute; reflexivity. }
  exists w'. split_and!; [exact Hrun|exact Hg|exact Hs|reflexivity].
Qed.

